(** * ShellOperationRunnerFactory

    A shallow embedding of
    [apps/rush-lib/src/logic/operations/ShellOperationRunnerFactory.ts]
    and the properties of the operation-runner factory proved about it.

    Conventions of the embedding:
    - a JavaScript string is a [string]; template literals are [+:+];
    - an object that is only compared or passed on is its reference
      ([ref]): [Map] keys and [Set] members are compared by identity;
    - the instance method that writes [this._customParametersByPhase] and
      the method that throws are computations of the monad [M]: they take
      the world before the call and give a completion (a value or a thrown
      error) with the world after it.  A throw keeps the writes made
      before it;
    - a script table holds the own properties of the [scripts] object of
      package.json, every one a string or [null], as its TypeScript type
      says. *)

From Stdlib Require Import Ascii.
From stdpp Require Import base strings gmap list.

(** ** JavaScript values used by the factory *)

Definition ref := positive.

(** [s.slice(start)] for a non-negative [start]. *)
Fixpoint slice (start : nat) (s : string) : string :=
  match start, s with
  | 0, _ => s
  | S _, EmptyString => EmptyString
  | S start', String _ s' => slice start' s'
  end.

(** [list.join(separator)] on an array of strings. *)
Definition join (separator : string) (l : list string) : string :=
  String.concat separator l.

(** Truthiness of a string: only the empty string is falsy. *)
Definition truthy (s : string) : bool :=
  match s with
  | EmptyString => false
  | String _ _ => true
  end.

(** A value of type [string | undefined | null]. *)
Inductive Nullable :=
  | JsUndefined
  | JsNull
  | JsString (s : string).

(** A property of the [scripts] object: a string or an explicit [null]. *)
Inductive ScriptEntry :=
  | ScriptNull
  | ScriptString (s : string).

(** [scripts?.[key]] *)
Definition optional_index (scripts : option (gmap string ScriptEntry))
    (key : string) : Nullable :=
  match scripts with
  | None => JsUndefined
  | Some table =>
      match table !! key with
      | None => JsUndefined
      | Some ScriptNull => JsNull
      | Some (ScriptString s) => JsString s
      end
  end.

(** [new Error(message)] *)
Record Error := { message : string }.

(** ** The data model *)

(** Collaborators the factory hands to the runner without looking inside. *)
Definition RushConfiguration := ref.
Definition BuildCacheConfiguration := ref.
Definition CommandLineConfiguration := ref.
Definition ProjectChangeAnalyzer := ref.

Record IPackageJson := {
  scripts : option (gmap string ScriptEntry)
}.

Record RushConfigurationProject := {
  packageName : string;
  packageJson : IPackageJson
}.

(** [phase_ref] is the identity of the phase object, the key of the
    memoization [Map]; [associatedParameters] is a [Set] of parameter
    objects. *)
Record IPhase := {
  phase_ref : ref;
  name : string;
  isSynthetic : bool;
  ignoreMissingScript : bool;
  associatedParameters : gset ref
}.

(** [appendToArgList(argList)] pushes onto [argList]; the array after the
    call is a function of the array before it. *)
Record CommandLineParameter := {
  appendToArgList : list string -> list string
}.

Record IRegisteredCustomParameter := {
  parameter : ref;
  tsCommandLineParameter : CommandLineParameter
}.

Record IShellOperationRunnerFactoryOptions := {
  rushConfiguration : RushConfiguration;
  buildCacheConfiguration : option BuildCacheConfiguration;
  commandLineConfiguration : CommandLineConfiguration;
  isIncrementalBuildAllowed : bool;
  customParameters : list IRegisteredCustomParameter;
  projectChangeAnalyzer : ProjectChangeAnalyzer
}.

Record IOperationOptions := {
  phase : IPhase;
  project : RushConfigurationProject
}.

(** Modelled from the spec: the [OperationStatus] enumeration
    (OperationStatus.ts is not among the sources); the spec lists these
    lifecycle states. *)
Inductive OperationStatus :=
  | Ready
  | Executing
  | Success
  | Failure
  | FromCache
  | Skipped
  | Blocked.

(** The options object passed to [new ShellOperationRunner(...)]. *)
Record IShellOperationRunnerOptions := {
  shell_rushProject : RushConfigurationProject;
  shell_displayName : string;
  shell_rushConfiguration : RushConfiguration;
  shell_buildCacheConfiguration : option BuildCacheConfiguration;
  shell_commandLineConfiguration : CommandLineConfiguration;
  shell_commandToRun : string;
  shell_isIncrementalBuildAllowed : bool;
  shell_projectChangeAnalyzer : ProjectChangeAnalyzer;
  shell_phase : IPhase
}.

(** The parameters passed to [new NullOperationRunner(...)]. *)
Record INullOperationRunnerParams := {
  null_name : string;
  null_result : OperationStatus;
  null_silent : bool
}.

Inductive IOperationRunner :=
  | ShellOperationRunner (options : IShellOperationRunnerOptions)
  | NullOperationRunner (params : INullOperationRunnerParams).

(** The private fields of a factory instance. *)
Record ShellOperationRunnerFactory := {
  _options : IShellOperationRunnerFactoryOptions;
  _customParametersByPhase : gmap ref (list string)
}.

(** [new ShellOperationRunnerFactory(options)] *)
Definition constructor (options : IShellOperationRunnerFactoryOptions)
    : ShellOperationRunnerFactory :=
  {| _options := options; _customParametersByPhase := ∅ |}.

(** ** Effects *)

(** The world a call runs in: the factory instance and, as a probe, the
    [appendToArgList] invocations made so far, each recorded by the
    [parameter] of the registered entry it was made on. *)
Record World := {
  this : ShellOperationRunnerFactory;
  appendToArgList_calls : list ref
}.

Inductive Completion (A : Type) :=
  | Return (a : A)
  | Throw (e : Error).
Arguments Return {A} a.
Arguments Throw {A} e.

Definition M (A : Type) : Type := World -> Completion A * World.

Definition ret {A} (a : A) : M A := fun w => (Return a, w).

Definition bind {A B} (m : M A) (k : A -> M B) : M B :=
  fun w =>
    match m w with
    | (Return a, w') => k a w'
    | (Throw e, w') => (Throw e, w')
    end.

Definition throw {A} (e : Error) : M A := fun w => (Throw e, w).

Definition get_this : M ShellOperationRunnerFactory :=
  fun w => (Return (this w), w).

Declare Scope js_scope.
Delimit Scope js_scope with js.
Notation "'let*' x ':=' m 'in' k" := (bind m (fun x => k))
  (at level 10, x name, m at level 100, k at level 200) : js_scope.

(** ** The factory *)

Section Factory.

(** [process.platform] *)
Variable platform : string.
(** [RushConstants.phaseNamePrefix] (RushConstants.ts is not among the
    sources). *)
Variable phaseNamePrefix : string.
(** [convertSlashesForWindows] of ShellOperationRunner.ts, which is not
    among the sources. *)
Variable convertSlashesForWindows : string -> string.

(** One turn of the [for ... of this._options.customParameters] loop:
    [acc] is the array under construction and the probe. *)
Definition append_if_associated (phase : IPhase)
    (acc : list string * list ref) (entry : IRegisteredCustomParameter)
    : list string * list ref :=
  if decide (parameter entry ∈ associatedParameters phase)
  then (appendToArgList (tsCommandLineParameter entry) acc.1,
        acc.2 ++ [parameter entry])
  else acc.

Definition _getCustomParameterValuesForPhase (phase : IPhase)
    : M (list string) :=
  fun w =>
    match _customParametersByPhase (this w) !! phase_ref phase with
    | Some customParameterValues => (Return customParameterValues, w)
    | None =>
        let '(customParameterValues, calls) :=
          fold_left (append_if_associated phase)
            (customParameters (_options (this w)))
            ([], appendToArgList_calls w) in
        (Return customParameterValues,
         {| this :=
              {| _options := _options (this w);
                 _customParametersByPhase :=
                   <[phase_ref phase := customParameterValues]>
                     (_customParametersByPhase (this w)) |};
            appendToArgList_calls := calls |})
    end.

Definition _getScriptToRun (rushProject : RushConfigurationProject)
    (commandToRun : string) (customParameterValues : list string)
    : option string :=
  let scripts := scripts (packageJson rushProject) in
  let rawCommand := optional_index scripts commandToRun in
  match rawCommand with
  | JsUndefined | JsNull => None
  | JsString rawCommand =>
      if negb (truthy rawCommand) then Some ""
      else
        let shellCommand :=
          rawCommand +:+ " " +:+ join " " customParameterValues in
        Some (if String.eqb platform "win32"
              then convertSlashesForWindows shellCommand
              else shellCommand)
  end.

Definition _getDisplayName (phase : IPhase)
    (project : RushConfigurationProject) : string :=
  if isSynthetic phase then packageName project
  else
    let phaseNameWithoutPrefix :=
      slice (String.length phaseNamePrefix) (name phase) in
    packageName project +:+ " (" +:+ phaseNameWithoutPrefix +:+ ")".

(** The message of the error thrown for a missing required script. *)
Definition missing_script_message (project : RushConfigurationProject)
    (phase : IPhase) : string :=
  "The project '" +:+ packageName project +:+ "' does not define a '"
    +:+ name phase
    +:+ "' command in the 'scripts' section of its package.json".

(** Truthiness of a [string | undefined]. *)
Definition truthy_command (commandToRun : option string) : bool :=
  match commandToRun with
  | None => false
  | Some s => truthy s
  end.

(** [commandToRun || ''] *)
Definition or_empty (commandToRun : option string) : string :=
  match commandToRun with
  | None => ""
  | Some s => if truthy s then s else ""
  end.

Definition createOperationRunner (options : IOperationOptions)
    : M IOperationRunner :=
  (let phase := phase options in
   let project := project options in
   let* this := get_this in
   let factoryOptions := _options this in
   let* customParameterValues := _getCustomParameterValuesForPhase phase in
   let commandToRun :=
     _getScriptToRun project (name phase) customParameterValues in
   let* _ :=
     (if bool_decide (commandToRun = None)
         && negb (ignoreMissingScript phase)
      then throw {| message := missing_script_message project phase |}
      else ret tt) in
   let displayName := _getDisplayName phase project in
   let runner :=
     if truthy_command commandToRun
     then ShellOperationRunner
            {| shell_rushProject := project;
               shell_displayName := displayName;
               shell_rushConfiguration := rushConfiguration factoryOptions;
               shell_buildCacheConfiguration :=
                 buildCacheConfiguration factoryOptions;
               shell_commandLineConfiguration :=
                 commandLineConfiguration factoryOptions;
               shell_commandToRun := or_empty commandToRun;
               shell_isIncrementalBuildAllowed :=
                 isIncrementalBuildAllowed factoryOptions;
               shell_projectChangeAnalyzer :=
                 projectChangeAnalyzer factoryOptions;
               shell_phase := phase |}
     else NullOperationRunner
            {| null_name := displayName;
               null_result := FromCache;
               null_silent := false |} in
   ret runner)%js.

(** The world after a sequence of [createOperationRunner] calls made one
    after the other on the same factory, whatever each call completes
    with. *)
Definition create_all (requests : list IOperationOptions) (w : World)
    : World :=
  fold_left (fun w options => (createOperationRunner options w).2)
    requests w.

End Factory.

(** ** Vocabulary of the statements *)

(** The registered entries whose parameter the phase is associated with,
    in registration order. *)
Definition associated_entries (phase : IPhase)
    (options : IShellOperationRunnerFactoryOptions)
    : list IRegisteredCustomParameter :=
  filter (fun entry => parameter entry ∈ associatedParameters phase)
    (customParameters options).

(** The argument list those entries render, one after the other, into an
    array that starts as [args]. *)
Definition render_onto (args : list string)
    (entries : list IRegisteredCustomParameter) : list string :=
  fold_left
    (fun args entry => appendToArgList (tsCommandLineParameter entry) args)
    entries args.

Definition rendered_arguments (phase : IPhase)
    (options : IShellOperationRunnerFactoryOptions) : list string :=
  render_onto [] (associated_entries phase options).

(** The script entry a phase selects in a project. *)
Definition script_entry (project : RushConfigurationProject)
    (phase : IPhase) : Nullable :=
  optional_index (scripts (packageJson project)) (name phase).

(** The command line of a non-empty script before any slash conversion. *)
Definition command_line (rawCommand : string) (args : list string)
    : string :=
  rawCommand +:+ " " +:+ join " " args.

(** The same on the platform the factory runs on. *)
Definition native_command_line (platform : string)
    (convertSlashesForWindows : string -> string) (rawCommand : string)
    (args : list string) : string :=
  if String.eqb platform "win32"
  then convertSlashesForWindows (command_line rawCommand args)
  else command_line rawCommand args.

(** What is asked of the absent [convertSlashesForWindows] where a
    statement needs it: on Windows it does not turn a command line into
    the empty string. *)
Definition keeps_commands_nonempty (platform : string)
    (convertSlashesForWindows : string -> string) : Prop :=
  platform = "win32" ->
  forall command, command <> "" -> convertSlashesForWindows command <> "".

(** The argument list a call for [phase] works with: the stored one when
    the phase has an entry, the freshly rendered one otherwise. *)
Definition values_for (phase : IPhase) (w : World) : list string :=
  default (rendered_arguments phase (_options (this w)))
    (_customParametersByPhase (this w) !! phase_ref phase).

(** The runner a call builds around a resolved command, and the no-op
    runner it builds otherwise. *)
Definition shell_runner_for (phaseNamePrefix : string)
    (options : IOperationOptions) (w : World) (command : string)
    : IOperationRunner :=
  ShellOperationRunner
    {| shell_rushProject := project options;
       shell_displayName :=
         _getDisplayName phaseNamePrefix (phase options) (project options);
       shell_rushConfiguration := rushConfiguration (_options (this w));
       shell_buildCacheConfiguration :=
         buildCacheConfiguration (_options (this w));
       shell_commandLineConfiguration :=
         commandLineConfiguration (_options (this w));
       shell_commandToRun := command;
       shell_isIncrementalBuildAllowed :=
         isIncrementalBuildAllowed (_options (this w));
       shell_projectChangeAnalyzer :=
         projectChangeAnalyzer (_options (this w));
       shell_phase := phase options |}.

Definition null_runner_for (phaseNamePrefix : string)
    (options : IOperationOptions) : IOperationRunner :=
  NullOperationRunner
    {| null_name :=
         _getDisplayName phaseNamePrefix (phase options) (project options);
       null_result := FromCache;
       null_silent := false |}.

(** ** Sample inputs *)

(** Modelled from the spec: [convertSlashesForWindows] (ShellOperationRunner.ts
    is not among the sources): on Windows, forward slashes in the resolved
    command line are rewritten to the native path separator. *)
Fixpoint convertSlashesForWindows_spec (command : string) : string :=
  match command with
  | EmptyString => EmptyString
  | String c rest =>
      String (if Ascii.eqb c "/"%char then "\"%char else c)
        (convertSlashesForWindows_spec rest)
  end.

(** The string has a forward slash at some position. *)
Definition has_forward_slash (s : string) : Prop :=
  exists i, String.get i s = Some "/"%char.

Module Sample.

(** A flag that renders [--production] and a parameter that renders
    [--locale en]. *)
Definition production : IRegisteredCustomParameter :=
  {| parameter := 11%positive;
     tsCommandLineParameter :=
       {| appendToArgList := fun args => args ++ ["--production"] |} |}.

Definition locale : IRegisteredCustomParameter :=
  {| parameter := 12%positive;
     tsCommandLineParameter :=
       {| appendToArgList := fun args => args ++ ["--locale"; "en"] |} |}.

Definition factoryOptions : IShellOperationRunnerFactoryOptions :=
  {| rushConfiguration := 1%positive;
     buildCacheConfiguration := None;
     commandLineConfiguration := 2%positive;
     isIncrementalBuildAllowed := true;
     customParameters := [production; locale];
     projectChangeAnalyzer := 3%positive |}.

Definition fresh : World :=
  {| this := constructor factoryOptions; appendToArgList_calls := [] |}.

Definition build : IPhase :=
  {| phase_ref := 21%positive; name := "build"; isSynthetic := false;
     ignoreMissingScript := false; associatedParameters := ∅ |}.

Definition test : IPhase :=
  {| phase_ref := 22%positive; name := "test"; isSynthetic := false;
     ignoreMissingScript := false; associatedParameters := ∅ |}.

Definition lint : IPhase :=
  {| phase_ref := 23%positive; name := "lint"; isSynthetic := false;
     ignoreMissingScript := true; associatedParameters := ∅ |}.

Definition compile : IPhase :=
  {| phase_ref := 24%positive; name := "_phase:compile";
     isSynthetic := false; ignoreMissingScript := false;
     associatedParameters := {[ 11%positive; 12%positive ]} |}.

Definition bundle : IPhase :=
  {| phase_ref := 25%positive; name := "bundle"; isSynthetic := true;
     ignoreMissingScript := false; associatedParameters := ∅ |}.

Definition alpha : RushConfigurationProject :=
  {| packageName := "alpha";
     packageJson :=
       {| scripts :=
            Some {[ "build" := ScriptString "tsc";
                    "_phase:compile" := ScriptString "bin/tsc -b";
                    "bundle" := ScriptNull ]} |} |}.

Definition beta : RushConfigurationProject :=
  {| packageName := "beta";
     packageJson :=
       {| scripts := Some {[ "test" := ScriptString "" ]} |} |}.

Definition gamma : RushConfigurationProject :=
  {| packageName := "gamma"; packageJson := {| scripts := None |} |}.

Definition alpha_build : IOperationOptions :=
  {| phase := build; project := alpha |}.
Definition alpha_compile : IOperationOptions :=
  {| phase := compile; project := alpha |}.
Definition beta_test : IOperationOptions :=
  {| phase := test; project := beta |}.
Definition gamma_lint : IOperationOptions :=
  {| phase := lint; project := gamma |}.
Definition gamma_compile : IOperationOptions :=
  {| phase := compile; project := gamma |}.

End Sample.

(** ** Vocabulary of the statements about runs *)

(** The identities of the phases a list of requests names. *)
Definition requested_phases (requests : list IOperationOptions) : gset ref :=
  list_to_set (map (fun options => phase_ref (phase options)) requests).

(** The requests of a list that meet a phase for the first time, [seen]
    being the phases met before the list starts. *)
Fixpoint first_requests (seen : gset ref)
    (requests : list IOperationOptions) : list IOperationOptions :=
  match requests with
  | [] => []
  | options :: rest =>
      if decide (phase_ref (phase options) ∈ seen)
      then first_requests seen rest
      else options
           :: first_requests ({[ phase_ref (phase options) ]} ∪ seen) rest
  end.

(** The probe entries one rendering for [phase] leaves. *)
Definition rendering_calls (options : IShellOperationRunnerFactoryOptions)
    (phase : IPhase) : list ref :=
  map parameter (associated_entries phase options).

(** ** ModelBuilder: overload indexes

    [apps/api-extractor/src/generators/ModelBuilder.ts], the method
    [_getOverloadIndex] and the field it reads and writes. *)

(** [ts.SyntaxKind]: the kinds the file names, and any other kind by its
    number. *)
Inductive SyntaxKind :=
  | ClassDeclaration
  | MethodDeclaration
  | ModuleDeclaration
  | MethodSignature
  | Constructor
  | ConstructSignature
  | EnumDeclaration
  | EnumMember
  | FunctionDeclaration
  | IndexSignature
  | InterfaceDeclaration
  | PropertyDeclaration
  | PropertySignature
  | TypeAliasDeclaration
  | VariableDeclaration
  | StaticKeyword
  | OtherSyntaxKind (code : N).

#[global] Instance SyntaxKind_eq_dec : EqDecision SyntaxKind.
Proof. solve_decision. Defined.

(** [ts.Declaration], of which the method reads the kind. *)
Record ts_Declaration := {
  kind : SyntaxKind
}.

(** An [AstDeclaration] object as an element of the declarations of its
    symbol: its identity, the key of the [Map], and its [declaration]. *)
Record AstDeclarationNode := {
  ast_ref : ref;
  declaration : ts_Declaration
}.

Record AstSymbol := {
  astDeclarations : list AstDeclarationNode
}.

(** An [AstDeclaration] object with its [astSymbol]. *)
Record AstDeclaration := {
  ast_node : AstDeclarationNode;
  astSymbol : AstSymbol
}.

(** The field of a [ModelBuilder] that [_getOverloadIndex] uses. *)
Record ModelBuilder := {
  _cachedOverloadIndexesByDeclaration : gmap ref nat
}.

(** One turn of the [for (const other of allDeclarations)] loop: [acc] is
    the map and [nextIndex]. *)
Definition record_overload (declarationKind : SyntaxKind)
    (acc : gmap ref nat * nat) (other : AstDeclarationNode)
    : gmap ref nat * nat :=
  if decide (kind (declaration other) = declarationKind)
  then (<[ast_ref other := acc.2]> acc.1, S acc.2)
  else acc.

Definition _getOverloadIndex (astDeclaration : AstDeclaration)
    (builder : ModelBuilder) : Completion nat * ModelBuilder :=
  let allDeclarations := astDeclarations (astSymbol astDeclaration) in
  if decide (length allDeclarations = 1) then (Return 0, builder)
  else
    match _cachedOverloadIndexesByDeclaration builder
          !! ast_ref (ast_node astDeclaration) with
    | Some overloadIndex => (Return overloadIndex, builder)
    | None =>
        let cached :=
          (fold_left
             (record_overload
                (kind (declaration (ast_node astDeclaration))))
             allDeclarations
             (_cachedOverloadIndexesByDeclaration builder, 0)).1 in
        let builder' :=
          {| _cachedOverloadIndexesByDeclaration := cached |} in
        match cached !! ast_ref (ast_node astDeclaration) with
        | Some overloadIndex => (Return overloadIndex, builder')
        | None =>
            (Throw {| message :=
                        "Error calculating overload index for declaration" |},
             builder')
        end
    end.

(** The builder after a sequence of [_getOverloadIndex] calls. *)
Definition index_all (requests : list AstDeclaration)
    (builder : ModelBuilder) : ModelBuilder :=
  fold_left (fun builder d => (_getOverloadIndex d builder).2)
    requests builder.

(** *** Vocabulary of the statements about overload indexes *)

(** The declarations of a list that come before the one with identity
    [r]. *)
Fixpoint declarations_before (r : ref) (l : list AstDeclarationNode)
    : list AstDeclarationNode :=
  match l with
  | [] => []
  | other :: rest =>
      if decide (ast_ref other = r) then []
      else other :: declarations_before r rest
  end.

(** The declarations of a list that have kind [k]. *)
Definition of_kind (k : SyntaxKind) (l : list AstDeclarationNode)
    : list AstDeclarationNode :=
  filter (fun other => kind (declaration other) = k) l.

(** The number of declarations of the symbol that have the kind of [d] and
    come before it. *)
Definition overload_rank (d : AstDeclaration) : nat :=
  length
    (of_kind (kind (declaration (ast_node d)))
       (declarations_before (ast_ref (ast_node d))
          (astDeclarations (astSymbol d)))).

(** The declarations of a symbol are distinct objects and the declaration
    is one of them. *)
Definition belongs_to_its_symbol (d : AstDeclaration) : Prop :=
  NoDup (map ast_ref (astDeclarations (astSymbol d)))
  /\ ast_node d ∈ astDeclarations (astSymbol d).

(** Two declarations whose symbols share a declaration object have the
    same symbol. *)
Definition one_symbol_per_declaration (d1 d2 : AstDeclaration) : Prop :=
  forall n1 n2,
    n1 ∈ astDeclarations (astSymbol d1) ->
    n2 ∈ astDeclarations (astSymbol d2) ->
    ast_ref n1 = ast_ref n2 ->
    astSymbol d1 = astSymbol d2.

(** Every stored index of a declaration of [U] is its rank. *)
Definition stored_indexes_are_ranks (U : list AstDeclaration)
    (b : ModelBuilder) : Prop :=
  forall d i,
    d ∈ U ->
    _cachedOverloadIndexesByDeclaration b !! ast_ref (ast_node d) = Some i ->
    i = overload_rank d.

Module OverloadSample.

Definition first_signature : AstDeclarationNode :=
  {| ast_ref := 31%positive;
     declaration := {| kind := FunctionDeclaration |} |}.
Definition merged_namespace : AstDeclarationNode :=
  {| ast_ref := 32%positive;
     declaration := {| kind := ModuleDeclaration |} |}.
Definition second_signature : AstDeclarationNode :=
  {| ast_ref := 33%positive;
     declaration := {| kind := FunctionDeclaration |} |}.
Definition stray : AstDeclarationNode :=
  {| ast_ref := 34%positive;
     declaration := {| kind := FunctionDeclaration |} |}.

(** A function with two signatures that is also a namespace. *)
Definition symbol : AstSymbol :=
  {| astDeclarations :=
       [first_signature; merged_namespace; second_signature] |}.

Definition first : AstDeclaration :=
  {| ast_node := first_signature; astSymbol := symbol |}.
Definition namespace : AstDeclaration :=
  {| ast_node := merged_namespace; astSymbol := symbol |}.
Definition second : AstDeclaration :=
  {| ast_node := second_signature; astSymbol := symbol |}.
(** A declaration that its symbol does not list. *)
Definition unlisted : AstDeclaration :=
  {| ast_node := stray; astSymbol := symbol |}.

Definition empty : ModelBuilder :=
  {| _cachedOverloadIndexesByDeclaration := ∅ |}.

End OverloadSample.

(** ** Properties *)

Section Properties.

Variable platform : string.
Variable phaseNamePrefix : string.
Variable convertSlashesForWindows : string -> string.

Local Abbreviation getScriptToRun :=
  (_getScriptToRun platform convertSlashesForWindows).
Local Abbreviation getDisplayName := (_getDisplayName phaseNamePrefix).
Local Abbreviation create :=
  (createOperationRunner platform phaseNamePrefix convertSlashesForWindows).
Local Abbreviation create_all' :=
  (create_all platform phaseNamePrefix convertSlashesForWindows).
Local Abbreviation memo w := (_customParametersByPhase (this w)).
Local Abbreviation native :=
  (native_command_line platform convertSlashesForWindows).
Local Abbreviation shell_runner := (shell_runner_for phaseNamePrefix).
Local Abbreviation null_runner := (null_runner_for phaseNamePrefix).

(** *** Strings *)

Lemma truthy_nonempty (s : string) : truthy s = true <-> s <> "".
Proof. destruct s; simpl; split; intros H; congruence. Qed.

Lemma slice_append (pre rest : string) :
  slice (String.length pre) (pre +:+ rest) = rest.
Proof. induction pre as [|c pre IH]; simpl; auto. Qed.

Lemma slice_length (n : nat) (s : string) :
  String.length (slice n s) = String.length s - n.
Proof.
  revert s. induction n as [|n IH]; intros s.
  - simpl. lia.
  - destruct s as [|c s]; simpl; auto.
Qed.

Lemma length_append (s1 s2 : string) :
  String.length (s1 +:+ s2) = String.length s1 + String.length s2.
Proof. induction s1 as [|c s1 IH]; simpl; auto. Qed.

Lemma slice_short (n : nat) (s : string) :
  String.length s <= n -> slice n s = "".
Proof.
  intros Hle. pose proof (slice_length n s) as Hlen.
  destruct (slice n s); simpl in Hlen; [done | lia].
Qed.

Lemma command_line_nonempty (rawCommand : string) (args : list string) :
  rawCommand <> "" -> command_line rawCommand args <> "".
Proof. destruct rawCommand; [done | discriminate]. Qed.

Lemma native_nonempty (rawCommand : string) (args : list string) :
  keeps_commands_nonempty platform convertSlashesForWindows ->
  rawCommand <> "" -> native rawCommand args <> "".
Proof.
  intros Hkeep Hraw. unfold native_command_line.
  destruct (String.eqb_spec platform "win32") as [Hwin|Hother].
  - apply (Hkeep Hwin). by apply command_line_nonempty.
  - by apply command_line_nonempty.
Qed.

(** *** Script resolution *)

Lemma getScriptToRun_absent (pr : RushConfigurationProject)
    (commandToRun : string) (args : list string) :
  optional_index (scripts (packageJson pr)) commandToRun = JsUndefined
  \/ optional_index (scripts (packageJson pr)) commandToRun = JsNull ->
  getScriptToRun pr commandToRun args = None.
Proof. unfold _getScriptToRun. by intros [-> | ->]. Qed.

Lemma getScriptToRun_empty (pr : RushConfigurationProject)
    (commandToRun : string) (args : list string) :
  optional_index (scripts (packageJson pr)) commandToRun = JsString "" ->
  getScriptToRun pr commandToRun args = Some "".
Proof. unfold _getScriptToRun. by intros ->. Qed.

Lemma getScriptToRun_command (pr : RushConfigurationProject)
    (commandToRun rawCommand : string) (args : list string) :
  optional_index (scripts (packageJson pr)) commandToRun
  = JsString rawCommand ->
  rawCommand <> "" ->
  getScriptToRun pr commandToRun args = Some (native rawCommand args).
Proof.
  unfold _getScriptToRun. intros -> Hraw.
  apply truthy_nonempty in Hraw. by rewrite Hraw.
Qed.

(** *** The memoized lookup *)

Lemma fold_append_if_associated (p : IPhase)
    (entries : list IRegisteredCustomParameter) (args : list string)
    (calls : list ref) :
  fold_left (append_if_associated p) entries (args, calls)
  = (render_onto args
       (filter (fun e => parameter e ∈ associatedParameters p) entries),
     calls ++ map parameter
       (filter (fun e => parameter e ∈ associatedParameters p) entries)).
Proof.
  revert args calls.
  induction entries as [|e entries IH]; intros args calls; simpl.
  - by rewrite app_nil_r.
  - unfold append_if_associated at 2.
    destruct (decide (parameter e ∈ associatedParameters p)) as [Hin|Hout].
    + rewrite filter_cons_True by done. simpl.
      rewrite IH. by rewrite <- app_assoc.
    + rewrite filter_cons_False by done. apply IH.
Qed.

Lemma lookup_stored (p : IPhase) (w : World) (l : list string) :
  memo w !! phase_ref p = Some l ->
  _getCustomParameterValuesForPhase p w = (Return l, w).
Proof.
  intros Hl. unfold _getCustomParameterValuesForPhase. by rewrite Hl.
Qed.

Lemma lookup_first (p : IPhase) (w : World) :
  memo w !! phase_ref p = None ->
  _getCustomParameterValuesForPhase p w
  = (Return (rendered_arguments p (_options (this w))),
     {| this :=
          {| _options := _options (this w);
             _customParametersByPhase :=
               <[phase_ref p := rendered_arguments p (_options (this w))]>
                 (memo w) |};
        appendToArgList_calls :=
          appendToArgList_calls w
          ++ map parameter (associated_entries p (_options (this w))) |}).
Proof.
  intros Hl. unfold _getCustomParameterValuesForPhase. rewrite Hl.
  by rewrite fold_append_if_associated.
Qed.

Lemma lookup_returns (p : IPhase) (w : World) :
  _getCustomParameterValuesForPhase p w
  = (Return (values_for p w), (_getCustomParameterValuesForPhase p w).2).
Proof.
  unfold values_for.
  destruct (memo w !! phase_ref p) as [l|] eqn:Hl.
  - by rewrite (lookup_stored _ _ _ Hl).
  - by rewrite (lookup_first _ _ Hl).
Qed.

Lemma lookup_populates (p : IPhase) (w : World) :
  memo (_getCustomParameterValuesForPhase p w).2 !! phase_ref p
  = Some (values_for p w).
Proof.
  unfold values_for.
  destruct (memo w !! phase_ref p) as [l|] eqn:Hl.
  - by rewrite (lookup_stored _ _ _ Hl).
  - rewrite (lookup_first _ _ Hl). simpl. apply lookup_insert_eq.
Qed.

Lemma lookup_keeps_options (p : IPhase) (w : World) :
  _options (this (_getCustomParameterValuesForPhase p w).2)
  = _options (this w).
Proof.
  destruct (memo w !! phase_ref p) as [l|] eqn:Hl.
  - by rewrite (lookup_stored _ _ _ Hl).
  - by rewrite (lookup_first _ _ Hl).
Qed.

Lemma lookup_keeps_other_entries (p : IPhase) (w : World) (k : ref) :
  k <> phase_ref p ->
  memo (_getCustomParameterValuesForPhase p w).2 !! k = memo w !! k.
Proof.
  intros Hk.
  destruct (memo w !! phase_ref p) as [l|] eqn:Hl.
  - by rewrite (lookup_stored _ _ _ Hl).
  - rewrite (lookup_first _ _ Hl). simpl. by rewrite lookup_insert_ne.
Qed.

(** *** The shape of a [createOperationRunner] call *)

Lemma create_cases (options : IOperationOptions) (w : World) :
  create options w
  = (match getScriptToRun (project options) (name (phase options))
             (values_for (phase options) w) with
     | None =>
         if ignoreMissingScript (phase options)
         then Return (null_runner options)
         else Throw {| message :=
                         missing_script_message (project options)
                           (phase options) |}
     | Some command =>
         if truthy command
         then Return (shell_runner options w command)
         else Return (null_runner options)
     end,
     (_getCustomParameterValuesForPhase (phase options) w).2).
Proof.
  unfold createOperationRunner, bind, get_this.
  rewrite lookup_returns. cbn [snd].
  destruct (getScriptToRun _ _ _) as [command|].
  - unfold truthy_command, or_empty, shell_runner_for, null_runner_for.
    by destruct (truthy command).
  - by destruct (ignoreMissingScript (phase options)).
Qed.

Lemma create_world (options : IOperationOptions) (w : World) :
  (create options w).2
  = (_getCustomParameterValuesForPhase (phase options) w).2.
Proof. by rewrite create_cases. Qed.

Lemma create_stored (options : IOperationOptions) (w : World)
    (l : list string) :
  memo w !! phase_ref (phase options) = Some l ->
  (create options w).2 = w.
Proof.
  intros Hl. rewrite create_world. by rewrite (lookup_stored _ _ _ Hl).
Qed.

Lemma create_keeps_entry (options : IOperationOptions) (w : World)
    (k : ref) (l : list string) :
  memo w !! k = Some l -> memo (create options w).2 !! k = Some l.
Proof.
  intros Hl. destruct (decide (k = phase_ref (phase options))) as [->|Hk].
  - by rewrite (create_stored _ _ _ Hl).
  - rewrite create_world. by rewrite lookup_keeps_other_entries.
Qed.

Lemma create_all_keeps_entry (requests : list IOperationOptions)
    (w : World) (k : ref) (l : list string) :
  memo w !! k = Some l -> memo (create_all' requests w) !! k = Some l.
Proof.
  revert w. induction requests as [|options requests IH]; intros w Hl.
  - done.
  - simpl. apply IH. by apply create_keeps_entry.
Qed.

Lemma create_all_keeps_options (requests : list IOperationOptions)
    (w : World) :
  _options (this (create_all' requests w)) = _options (this w).
Proof.
  revert w. induction requests as [|options requests IH]; intros w.
  - done.
  - simpl. rewrite IH. rewrite create_world. apply lookup_keeps_options.
Qed.

Lemma no_associated_entries (p : IPhase)
    (options : IShellOperationRunnerFactoryOptions) :
  associatedParameters p = ∅ -> associated_entries p options = [].
Proof.
  intros Hnone. unfold associated_entries. rewrite Hnone.
  induction (customParameters options) as [|e entries IH]; [done|].
  rewrite filter_cons_False; [done|]. apply not_elem_of_empty.
Qed.

Lemma missing_script_throw_only_if_absent (options : IOperationOptions)
    (w : World) :
  (exists e w', create options w = (Throw e, w')) ->
  (script_entry (project options) (phase options) = JsUndefined
   \/ script_entry (project options) (phase options) = JsNull)
  /\ ignoreMissingScript (phase options) = false.
Proof.
  rewrite create_cases. unfold script_entry.
  intros (e & w' & H).
  destruct (optional_index _ _) as [| |rawCommand] eqn:Hentry.
  1, 2: rewrite getScriptToRun_absent in H by auto;
    destruct (ignoreMissingScript (phase options));
    [discriminate H | auto].
  exfalso. destruct rawCommand as [|c rest].
  - rewrite (getScriptToRun_empty _ _ _ Hentry) in H. discriminate H.
  - rewrite (getScriptToRun_command _ _ _ _ Hentry) in H by done.
    destruct (truthy _); discriminate H.
Qed.

(** *** Required scripts *)

(** C1: [createOperationRunner] throws if and only if the script entry of
    the phase is absent or [null] and [ignoreMissingScript] is false; the
    error it throws names the project and the phase; and with the entry
    absent or [null] and [ignoreMissingScript] true it returns a no-op
    runner whose result is [FromCache] and which is not silent. *)
Theorem missing_required_script_error (options : IOperationOptions)
    (w : World) :
  let absent :=
    script_entry (project options) (phase options) = JsUndefined
    \/ script_entry (project options) (phase options) = JsNull in
  ((exists e w', create options w = (Throw e, w'))
   <-> absent /\ ignoreMissingScript (phase options) = false)
  /\ (forall e w', create options w = (Throw e, w') ->
      message e
      = "The project '" +:+ packageName (project options)
        +:+ "' does not define a '" +:+ name (phase options)
        +:+ "' command in the 'scripts' section of its package.json")
  /\ (absent -> ignoreMissingScript (phase options) = true ->
      exists w',
        create options w
        = (Return
             (NullOperationRunner
                {| null_name :=
                     getDisplayName (phase options) (project options);
                   null_result := FromCache;
                   null_silent := false |}), w')).
Proof.
  intros absent. subst absent. unfold script_entry.
  rewrite create_cases.
  destruct (optional_index _ _) as [| |rawCommand] eqn:Hentry.
  1, 2: rewrite getScriptToRun_absent by auto;
    destruct (ignoreMissingScript (phase options));
    (split; [split | split]);
    [ intros (e & w' & H); discriminate H
    | intros [_ H]; discriminate H
    | intros e w' H; discriminate H
    | eauto
    | auto
    | eauto
    | intros e w' H; by inversion H
    | intros _ H; discriminate H ].
  assert (exists r,
    match getScriptToRun (project options) (name (phase options))
            (values_for (phase options) w) with
    | Some command =>
        if truthy command
        then Return (shell_runner options w command)
        else Return (null_runner options)
    | None =>
        if ignoreMissingScript (phase options)
        then Return (null_runner options)
        else Throw {| message :=
                        missing_script_message (project options)
                          (phase options) |}
    end = Return r) as [r ->].
  { destruct rawCommand as [|c rest].
    - rewrite (getScriptToRun_empty _ _ _ Hentry). simpl. eauto.
    - rewrite (getScriptToRun_command _ _ _ _ Hentry) by done.
      destruct (truthy _); eauto. }
  split; [split | split].
  - intros (e & w' & H). discriminate H.
  - intros [[H|H] _]; discriminate H.
  - intros e w' H. discriminate H.
  - intros [H|H]; discriminate H.
Qed.

(** C3: a script entry that is present and empty gives a no-op runner
    with result [FromCache], and no error, whatever
    [ignoreMissingScript] is. *)
Theorem empty_script_is_noop (options : IOperationOptions) (w : World) :
  script_entry (project options) (phase options) = JsString "" ->
  exists w',
    create options w
    = (Return
         (NullOperationRunner
            {| null_name :=
                 getDisplayName (phase options) (project options);
               null_result := FromCache;
               null_silent := false |}), w').
Proof.
  intros Hentry. rewrite create_cases.
  rewrite (getScriptToRun_empty _ _ _ Hentry). eauto.
Qed.

(** C9: a shell runner built by [createOperationRunner] carries a
    non-empty [commandToRun], and it is the resolved command itself: the
    fallback of [commandToRun || ''] is never taken. *)
Theorem shell_runner_command_nonempty (options : IOperationOptions)
    (w w' : World) (o : IShellOperationRunnerOptions) :
  create options w = (Return (ShellOperationRunner o), w') ->
  shell_commandToRun o <> ""
  /\ getScriptToRun (project options) (name (phase options))
       (values_for (phase options) w)
     = Some (shell_commandToRun o).
Proof.
  rewrite create_cases.
  destruct (getScriptToRun _ _ _) as [command|].
  - destruct (truthy command) eqn:Ht; intros H; inversion H; subst.
    simpl. split; [by apply truthy_nonempty | done].
  - destruct (ignoreMissingScript (phase options)); intros H; inversion H.
Qed.

(** *** Display names *)

(** C5: the display name is the package name for a synthetic phase;
    otherwise it is the package name followed by the phase portion in
    parentheses, where the phase portion is the name sliced at the length
    of the prefix, that is the name without the prefix when it begins
    with it. *)
Theorem display_name (p : IPhase) (pr : RushConfigurationProject) :
  (isSynthetic p = true -> getDisplayName p pr = packageName pr)
  /\ (isSynthetic p = false ->
      getDisplayName p pr
      = packageName pr +:+ " ("
        +:+ slice (String.length phaseNamePrefix) (name p) +:+ ")")
  /\ (isSynthetic p = false ->
      forall rest, name p = phaseNamePrefix +:+ rest ->
      getDisplayName p pr = packageName pr +:+ " (" +:+ rest +:+ ")").
Proof.
  unfold _getDisplayName. repeat split.
  - by intros ->.
  - by intros ->.
  - intros -> rest ->. by rewrite slice_append.
Qed.

(** C10: for a phase that is not synthetic the phase portion of the
    display name is the name without its first N characters, N the
    length of the prefix, with no test that the name begins with the
    prefix: the portion is N characters shorter than the name (empty
    when the name has at most N characters), and for a name that does not
    begin with the prefix N is positive and the portion is not the full
    name, unless the name is empty. *)
Theorem display_name_is_positional (p : IPhase)
    (pr : RushConfigurationProject) :
  isSynthetic p = false ->
  let N := String.length phaseNamePrefix in
  getDisplayName p pr
  = packageName pr +:+ " (" +:+ slice N (name p) +:+ ")"
  /\ String.length (slice N (name p)) = String.length (name p) - N
  /\ (String.length (name p) <= N -> slice N (name p) = "")
  /\ ((~ exists rest, name p = phaseNamePrefix +:+ rest) ->
      0 < N /\ (name p <> "" -> slice N (name p) <> name p)).
Proof.
  intros Hsyn N. unfold _getDisplayName. rewrite Hsyn.
  split; [done|]. split; [apply slice_length|].
  split; [apply slice_short|].
  intros Hnot.
  assert (0 < N) as HN.
  { subst N. destruct phaseNamePrefix as [|c pre]; simpl; [|lia].
    exfalso. apply Hnot. by exists (name p). }
  split; [done|]. intros Hname Heq.
  pose proof (slice_length N (name p)) as Hlen. rewrite Heq in Hlen.
  destruct (name p); simpl in Hlen; [done | lia].
Qed.

(** *** Command lines *)

(** For a script entry that is a non-empty string the resolved command
    line goes through [convertSlashesForWindows], whatever that helper is,
    when [process.platform] is [win32], and is returned as it is on every
    other platform. *)
Lemma conversion_applied_only_on_windows (pr : RushConfigurationProject)
    (commandToRun rawCommand : string) (args : list string) :
  optional_index (scripts (packageJson pr)) commandToRun
  = JsString rawCommand ->
  rawCommand <> "" ->
  (platform = "win32" ->
   getScriptToRun pr commandToRun args
   = Some (convertSlashesForWindows (command_line rawCommand args)))
  /\ (platform <> "win32" ->
      getScriptToRun pr commandToRun args
      = Some (command_line rawCommand args)).
Proof.
  intros Hentry Hraw.
  rewrite (getScriptToRun_command _ _ _ _ Hentry Hraw).
  unfold native_command_line.
  destruct (String.eqb_spec platform "win32"); split; intros; congruence.
Qed.

(** C7: script resolution keeps three cases apart: it returns
    [undefined] exactly for an entry that is absent or [null], the empty
    string exactly for an entry that is the empty string, and a non-empty
    string, the command line, exactly for an entry that is a non-empty
    string; and only an absent or [null] entry makes
    [createOperationRunner] throw. *)
Theorem script_resolution_three_way (pr : RushConfigurationProject)
    (commandToRun : string) (args : list string) :
  keeps_commands_nonempty platform convertSlashesForWindows ->
  let entry := optional_index (scripts (packageJson pr)) commandToRun in
  let result := getScriptToRun pr commandToRun args in
  (result = None <-> entry = JsUndefined \/ entry = JsNull)
  /\ (result = Some "" <-> entry = JsString "")
  /\ ((exists command, result = Some command /\ command <> "")
      <-> exists rawCommand, entry = JsString rawCommand /\ rawCommand <> "")
  /\ (forall rawCommand, entry = JsString rawCommand -> rawCommand <> "" ->
      result = Some (native rawCommand args))
  /\ (forall options w e w',
      create options w = (Throw e, w') ->
      script_entry (project options) (phase options) = JsUndefined
      \/ script_entry (project options) (phase options) = JsNull).
Proof.
  intros Hkeep entry result.
  assert (forall rawCommand, entry = JsString rawCommand ->
          rawCommand <> "" -> result = Some (native rawCommand args))
    as Hcommand.
  { intros rawCommand Hentry Hraw. by apply getScriptToRun_command. }
  split; [|split; [|split; [|split]]]; try done.
  - subst result. destruct entry as [| |rawCommand] eqn:Hentry.
    + rewrite getScriptToRun_absent by auto. split; auto.
    + rewrite getScriptToRun_absent by auto. split; auto.
    + destruct rawCommand as [|c rest].
      * rewrite (getScriptToRun_empty _ _ _ Hentry).
        split; [done | intros [H|H]; discriminate H].
      * rewrite (getScriptToRun_command _ _ _ _ Hentry) by done.
        split; [done | intros [H|H]; discriminate H].
  - subst result. destruct entry as [| |rawCommand] eqn:Hentry.
    + rewrite getScriptToRun_absent by auto. split; done.
    + rewrite getScriptToRun_absent by auto. split; done.
    + destruct rawCommand as [|c rest].
      * by rewrite (getScriptToRun_empty _ _ _ Hentry).
      * rewrite (getScriptToRun_command _ _ _ _ Hentry) by done.
        split; [|done].
        intros H. exfalso.
        apply (native_nonempty (String c rest) args Hkeep); congruence.
  - split.
    + intros (command & Hres & Hne). subst result.
      destruct entry as [| |rawCommand] eqn:Hentry.
      * rewrite getScriptToRun_absent in Hres by auto. discriminate Hres.
      * rewrite getScriptToRun_absent in Hres by auto. discriminate Hres.
      * exists rawCommand. split; [done|]. intros ->.
        rewrite (getScriptToRun_empty _ _ _ Hentry) in Hres. congruence.
    + intros (rawCommand & Hentry & Hraw).
      exists (native rawCommand args).
      split; [by apply Hcommand | by apply native_nonempty].
  - intros options w e w' Hthrow.
    apply (missing_script_throw_only_if_absent options w). eauto.
Qed.

(** C2, amended: with [convertSlashesForWindows] keeping command lines
    non-empty, a script entry that is a non-empty string gives a shell
    runner whose command line is the raw script, a space and the
    argument list of the phase joined by spaces, passed through
    [convertSlashesForWindows] when the platform is [win32]; for a
    project alpha whose build script is tsc and a phase named build
    that is not synthetic and has no custom parameter, on a new factory,
    the command line is tsc followed by that space (converted on
    Windows) and the display name is alpha followed by the name
    sliced at the length of the prefix, in parentheses, which shows the
    whole name only for an empty prefix. *)
Theorem non_empty_script_gives_shell_runner :
  keeps_commands_nonempty platform convertSlashesForWindows ->
  (forall options w rawCommand,
     script_entry (project options) (phase options) = JsString rawCommand ->
     rawCommand <> "" ->
     exists o w',
       create options w = (Return (ShellOperationRunner o), w')
       /\ shell_commandToRun o
          = native rawCommand (values_for (phase options) w)
       /\ memo w' !! phase_ref (phase options)
          = Some (values_for (phase options) w)
       /\ shell_displayName o
          = getDisplayName (phase options) (project options))
  /\ (forall factoryOptions calls p pr,
       name p = "build" -> isSynthetic p = false ->
       associatedParameters p = ∅ ->
       packageName pr = "alpha" ->
       script_entry pr p = JsString "tsc" ->
       exists o w',
         create {| phase := p; project := pr |}
           {| this := constructor factoryOptions;
              appendToArgList_calls := calls |}
         = (Return (ShellOperationRunner o), w')
         /\ shell_commandToRun o
            = (if String.eqb platform "win32"
               then convertSlashesForWindows "tsc "
               else "tsc ")
         /\ shell_displayName o
            = "alpha (" +:+ slice (String.length phaseNamePrefix) "build"
              +:+ ")"
         /\ (shell_displayName o = "alpha (build)"
            <-> phaseNamePrefix = "")).
Proof.
  intros Hkeep.
  assert (forall options w rawCommand,
     script_entry (project options) (phase options) = JsString rawCommand ->
     rawCommand <> "" ->
     create options w
     = (Return (shell_runner options w
                  (native rawCommand (values_for (phase options) w))),
        (_getCustomParameterValuesForPhase (phase options) w).2))
    as Hshell.
  { intros options w rawCommand Hentry Hraw. rewrite create_cases.
    rewrite (getScriptToRun_command _ _ _ _ Hentry Hraw).
    pose proof (native_nonempty rawCommand
                  (values_for (phase options) w) Hkeep Hraw) as Hne.
    apply truthy_nonempty in Hne. by rewrite Hne. }
  split.
  - intros options w rawCommand Hentry Hraw.
    eexists _, _. split; [by apply (Hshell _ _ rawCommand)|].
    split; [done|]. split; [apply lookup_populates | done].
  - intros factoryOptions calls p pr Hname Hsyn Hnone Hpkg Hentry.
    eexists _, _.
    split; [by apply (Hshell {| phase := p; project := pr |} _ "tsc")|].
    simpl. split.
    + unfold values_for, rendered_arguments. simpl.
      rewrite lookup_empty. simpl.
      by rewrite (no_associated_entries _ _ Hnone).
    + unfold _getDisplayName. rewrite Hsyn, Hpkg, Hname.
      split; [done|]. split.
      * pose proof (slice_length (String.length phaseNamePrefix) "build")
          as Hlen.
        set (portion := slice _ "build") in *.
        intros Heq. simpl in Heq. injection Heq as Heq.
        apply (f_equal String.length) in Heq.
        rewrite !length_append in Heq. simpl in Heq, Hlen.
        destruct phaseNamePrefix; [done | simpl in Hlen; lia].
      * by intros ->.
Qed.

(** *** Memoization and frame *)

(** C4: the argument list is memoized by the identity of the phase.  A
    call of [_getCustomParameterValuesForPhase] for a phase without an
    entry renders the list, one [appendToArgList] call for each
    associated registered parameter in order, and stores it under the
    phase; after that, and after any further [createOperationRunner]
    calls, a call for the same phase object returns the stored list and
    leaves the world as it is, so that nothing is rendered again,
    whichever project [createOperationRunner] is called for. *)
Theorem custom_parameters_memoized_by_phase (p : IPhase) (w : World) :
  memo w !! phase_ref p = None ->
  let l := rendered_arguments p (_options (this w)) in
  let w1 := (_getCustomParameterValuesForPhase p w).2 in
  (_getCustomParameterValuesForPhase p w).1 = Return l
  /\ memo w1 = <[phase_ref p := l]> (memo w)
  /\ appendToArgList_calls w1
     = appendToArgList_calls w
       ++ map parameter (associated_entries p (_options (this w)))
  /\ forall (requests : list IOperationOptions) (p' : IPhase),
       phase_ref p' = phase_ref p ->
       let w2 := create_all' requests w1 in
       _getCustomParameterValuesForPhase p' w2 = (Return l, w2)
       /\ values_for p' w2 = l
       /\ forall pr' : RushConfigurationProject,
            (create {| phase := p'; project := pr' |} w2).2 = w2.
Proof.
  intros Hnone l w1. subst l w1. rewrite (lookup_first _ _ Hnone).
  cbn [fst snd this _customParametersByPhase appendToArgList_calls].
  split; [done|]. split; [done|]. split; [done|].
  intros requests p' Href. set (w2 := create_all' requests _).
  assert (memo w2 !! phase_ref p'
          = Some (rendered_arguments p (_options (this w)))) as Hstored.
  { subst w2. apply create_all_keeps_entry. simpl.
    rewrite Href. apply lookup_insert_eq. }
  split; [by apply lookup_stored|].
  split; [unfold values_for; by rewrite Hstored|].
  intros pr'.
  by apply (create_stored {| phase := p'; project := pr' |} w2
              (rendered_arguments p (_options (this w)))).
Qed.

(** C8: a [createOperationRunner] call, also one that throws, leaves the
    options of the factory as they were and changes the memoization map
    at most by the entry of the requested phase, which it adds when
    there was none; after the call, and so at the point where the error
    is thrown, that entry is there.  The project and the phase are
    values that the call only reads. *)
Theorem create_changes_only_the_memo_entry (options : IOperationOptions)
    (w : World) :
  let p := phase options in
  let w' := (create options w).2 in
  _options (this w') = _options (this w)
  /\ (forall k, k <> phase_ref p -> memo w' !! k = memo w !! k)
  /\ memo w' !! phase_ref p = Some (values_for p w)
  /\ (w' = w
      \/ (memo w !! phase_ref p = None
          /\ this w'
             = {| _options := _options (this w);
                  _customParametersByPhase :=
                    <[phase_ref p :=
                        rendered_arguments p (_options (this w))]>
                      (memo w) |}))
  /\ (forall e w'', create options w = (Throw e, w'') ->
      w'' = w' /\ is_Some (memo w'' !! phase_ref p)).
Proof.
  intros p w'. subst p w'. rewrite create_world.
  split; [apply lookup_keeps_options|].
  split; [intros k Hk; by apply lookup_keeps_other_entries|].
  split; [apply lookup_populates|].
  split.
  - destruct (memo w !! phase_ref (phase options)) as [l|] eqn:Hl.
    + left. by rewrite (lookup_stored _ _ _ Hl).
    + right. split; [done|]. by rewrite (lookup_first _ _ Hl).
  - intros e w'' Hthrow.
    assert (w'' = (create options w).2) as -> by by rewrite Hthrow.
    rewrite create_world. split; [done|].
    rewrite lookup_populates. by eexists.
Qed.

End Properties.

(** ** The properties on the sample inputs *)

Lemma convertSlashesForWindows_spec_nonempty (platform : string) :
  keeps_commands_nonempty platform convertSlashesForWindows_spec.
Proof. intros _ [|c rest] Hne; [done | discriminate]. Qed.

(** The scenario of C2 as the code runs it on a POSIX platform: the command
    line of alpha's build is the script followed by a space, not the bare
    script. *)
Lemma alpha_build_command_has_trailing_space :
  exists o w',
    createOperationRunner "linux" "_phase:" convertSlashesForWindows_spec
      Sample.alpha_build Sample.fresh
    = (Return (ShellOperationRunner o), w')
    /\ shell_commandToRun o = "tsc "
    /\ shell_commandToRun o <> "tsc".
Proof.
  eexists _, _. split; [vm_compute; reflexivity|].
  split; [reflexivity | discriminate].
Qed.

Lemma non_empty_script_gives_shell_runner_witness :
  keeps_commands_nonempty "win32" convertSlashesForWindows_spec
  /\ exists o w',
       createOperationRunner "win32" "_phase:" convertSlashesForWindows_spec
         Sample.alpha_compile Sample.fresh
       = (Return (ShellOperationRunner o), w')
       /\ shell_commandToRun o = "bin\tsc -b --production --locale en"
       /\ shell_displayName o = "alpha (compile)".
Proof.
  split; [apply convertSlashesForWindows_spec_nonempty|].
  destruct (non_empty_script_gives_shell_runner "win32" "_phase:"
              convertSlashesForWindows_spec
              (convertSlashesForWindows_spec_nonempty "win32"))
    as [Hgeneral _].
  destruct (Hgeneral Sample.alpha_compile Sample.fresh "bin/tsc -b")
    as (o & w' & Hrun & Hcommand & _ & Hname);
    [reflexivity | discriminate |].
  exists o, w'. split; [exact Hrun|]. by rewrite Hcommand, Hname.
Defined.

Lemma empty_script_is_noop_witness :
  script_entry (project Sample.beta_test) (phase Sample.beta_test)
  = JsString ""
  /\ exists w',
       createOperationRunner "linux" "_phase:" convertSlashesForWindows_spec
         Sample.beta_test Sample.fresh
       = (Return
            (NullOperationRunner
               {| null_name := "beta ()";
                  null_result := FromCache;
                  null_silent := false |}), w').
Proof.
  split; [reflexivity|].
  apply (empty_script_is_noop "linux" "_phase:" convertSlashesForWindows_spec
           Sample.beta_test Sample.fresh).
  reflexivity.
Defined.

Lemma custom_parameters_memoized_by_phase_witness :
  _customParametersByPhase (this Sample.fresh)
    !! phase_ref Sample.compile = None
  /\ let w1 := (_getCustomParameterValuesForPhase Sample.compile
                  Sample.fresh).2 in
     let w2 :=
       create_all "linux" "_phase:" convertSlashesForWindows_spec
         [Sample.beta_test; Sample.gamma_compile; Sample.alpha_build] w1 in
     appendToArgList_calls w1 = [11%positive; 12%positive]
     /\ _getCustomParameterValuesForPhase Sample.compile w2
        = (Return ["--production"; "--locale"; "en"], w2)
     /\ appendToArgList_calls
          (createOperationRunner "linux" "_phase:"
             convertSlashesForWindows_spec Sample.alpha_compile w2).2
        = [11%positive; 12%positive].
Proof.
  split; [reflexivity|].
  destruct (custom_parameters_memoized_by_phase "linux" "_phase:"
              convertSlashesForWindows_spec Sample.compile Sample.fresh)
    as (_ & _ & Hcalls & Hlater); [reflexivity|].
  destruct (Hlater
              [Sample.beta_test; Sample.gamma_compile; Sample.alpha_build]
              Sample.compile eq_refl)
    as (Hagain & _ & Hcreate).
  split; [exact Hcalls|]. split; [exact Hagain|].
  change Sample.alpha_compile
    with {| phase := Sample.compile; project := Sample.alpha |}.
  rewrite (Hcreate Sample.alpha). exact Hcalls.
Defined.

Lemma convertSlashesForWindows_spec_length (command : string) :
  String.length (convertSlashesForWindows_spec command)
  = String.length command.
Proof. induction command as [|c rest IH]; simpl; auto. Qed.

Lemma convertSlashesForWindows_spec_get (command : string) (i : nat)
    (c : ascii) :
  String.get i command = Some c ->
  String.get i (convertSlashesForWindows_spec command)
  = Some (if Ascii.eqb c "/"%char then "\"%char else c).
Proof.
  revert i. induction command as [|c' rest IH]; intros i Hget.
  - destruct i; discriminate Hget.
  - destruct i as [|i]; simpl in *.
    + by injection Hget as ->.
    + by apply IH.
Qed.

Lemma convertSlashesForWindows_spec_no_slash (command : string) :
  ~ has_forward_slash (convertSlashesForWindows_spec command).
Proof.
  intros [i Hget]. revert i Hget.
  induction command as [|c rest IH]; intros i Hget.
  - destruct i; discriminate Hget.
  - destruct i as [|i]; simpl in Hget.
    + injection Hget as Hc.
      destruct (Ascii.eqb_spec c "/"%char) as [->|Hne];
        [discriminate Hc | done].
    + by apply (IH i).
Qed.

(** C6: for a script entry that is a non-empty string, with the slash
    conversion the spec describes, on [win32] the resolved command line is
    the command line with every forward slash rewritten to a backslash,
    the native separator, and nothing else changed, so that no forward
    slash is left; on every other platform it is the command line
    unchanged.  A command line that has a forward slash is thus changed if
    and only if the platform is [win32].  Whatever the conversion helper
    is, it is applied on [win32] and only there. *)
Theorem forward_slashes_rewritten_only_on_windows (platform : string)
    (pr : RushConfigurationProject) (commandToRun rawCommand : string)
    (args : list string) :
  optional_index (scripts (packageJson pr)) commandToRun
  = JsString rawCommand ->
  rawCommand <> "" ->
  let line := command_line rawCommand args in
  let resolved :=
    _getScriptToRun platform convertSlashesForWindows_spec pr commandToRun
      args in
  (platform = "win32" ->
   exists converted,
     resolved = Some converted
     /\ String.length converted = String.length line
     /\ (forall i c,
          String.get i line = Some c ->
          String.get i converted
          = Some (if Ascii.eqb c "/"%char then "\"%char else c))
     /\ ~ has_forward_slash converted)
  /\ (platform <> "win32" -> resolved = Some line)
  /\ (has_forward_slash line ->
      (resolved <> Some line <-> platform = "win32"))
  /\ (forall convertSlashesForWindows : string -> string,
        (platform = "win32" ->
         _getScriptToRun platform convertSlashesForWindows pr commandToRun
           args
         = Some (convertSlashesForWindows line))
        /\ (platform <> "win32" ->
            _getScriptToRun platform convertSlashesForWindows pr
              commandToRun args
            = Some line)).
Proof.
  intros Hentry Hraw line resolved.
  assert (forall convertSlashesForWindows : string -> string,
            _getScriptToRun platform convertSlashesForWindows pr
              commandToRun args
            = Some (if String.eqb platform "win32"
                    then convertSlashesForWindows line else line))
    as Hresolved.
  { intros convert.
    by rewrite (getScriptToRun_command _ _ _ _ _ _ Hentry Hraw). }
  subst resolved. rewrite Hresolved.
  destruct (String.eqb_spec platform "win32") as [Hwin|Hother].
  - split; [|split; [|split]].
    + intros _. exists (convertSlashesForWindows_spec line).
      split; [done|].
      split; [apply convertSlashesForWindows_spec_length|].
      split; [apply convertSlashesForWindows_spec_get|].
      apply convertSlashesForWindows_spec_no_slash.
    + done.
    + intros Hslash. split; [done|]. intros _ [= Heq].
      apply (convertSlashesForWindows_spec_no_slash line).
      by rewrite Heq.
    + intros convert. rewrite Hresolved.
      destruct (String.eqb_spec platform "win32"); [|done].
      by split.
  - split; [|split; [|split]].
    + done.
    + done.
    + intros _. split; [done | done].
    + intros convert. rewrite Hresolved.
      destruct (String.eqb_spec platform "win32"); [done|].
      by split.
Qed.

Lemma forward_slashes_rewritten_only_on_windows_witness :
  optional_index (scripts (packageJson Sample.alpha)) "_phase:compile"
  = JsString "bin/tsc -b"
  /\ "bin/tsc -b" <> ""
  /\ (exists converted,
        _getScriptToRun "win32" convertSlashesForWindows_spec Sample.alpha
          "_phase:compile" ["--production"]
        = Some converted
        /\ converted = "bin\tsc -b --production"
        /\ ~ has_forward_slash converted)
  /\ _getScriptToRun "linux" convertSlashesForWindows_spec Sample.alpha
       "_phase:compile" ["--production"]
     = Some "bin/tsc -b --production".
Proof.
  split; [reflexivity|]. split; [discriminate|]. split.
  - destruct (forward_slashes_rewritten_only_on_windows "win32"
                Sample.alpha "_phase:compile" "bin/tsc -b"
                ["--production"] eq_refl)
      as (Hwin & _); [discriminate|].
    destruct (Hwin eq_refl) as (converted & Hresolved & _ & _ & Hnone).
    exists converted. split; [exact Hresolved|]. split; [|exact Hnone].
    vm_compute in Hresolved. by injection Hresolved as <-.
  - destruct (forward_slashes_rewritten_only_on_windows "linux"
                Sample.alpha "_phase:compile" "bin/tsc -b"
                ["--production"] eq_refl)
      as (_ & Hother & _); [discriminate|].
    apply Hother. discriminate.
Defined.

Lemma script_resolution_three_way_witness :
  keeps_commands_nonempty "win32" convertSlashesForWindows_spec
  /\ (_getScriptToRun "win32" convertSlashesForWindows_spec Sample.beta
        "test" ["--production"] = Some ""
      <-> optional_index (scripts (packageJson Sample.beta)) "test"
          = JsString "")
  /\ (_getScriptToRun "win32" convertSlashesForWindows_spec Sample.beta
        "test" ["--production"] = None
      <-> optional_index (scripts (packageJson Sample.beta)) "test"
          = JsUndefined
          \/ optional_index (scripts (packageJson Sample.beta)) "test"
             = JsNull).
Proof.
  split; [apply convertSlashesForWindows_spec_nonempty|].
  destruct (script_resolution_three_way "win32" "_phase:"
              convertSlashesForWindows_spec Sample.beta "test"
              ["--production"]
              (convertSlashesForWindows_spec_nonempty "win32"))
    as (Hundefined & Hempty & _).
  split; [exact Hempty | exact Hundefined].
Defined.

Lemma shell_runner_command_nonempty_witness :
  exists o w',
    createOperationRunner "linux" "_phase:" convertSlashesForWindows_spec
      Sample.alpha_compile Sample.fresh
    = (Return (ShellOperationRunner o), w')
    /\ shell_commandToRun o <> ""
    /\ _getScriptToRun "linux" convertSlashesForWindows_spec Sample.alpha
         "_phase:compile" (values_for Sample.compile Sample.fresh)
       = Some (shell_commandToRun o).
Proof.
  eexists _, _. split; [vm_compute; reflexivity|].
  eapply (shell_runner_command_nonempty "linux" "_phase:"
            convertSlashesForWindows_spec Sample.alpha_compile Sample.fresh).
  vm_compute; reflexivity.
Defined.

Lemma display_name_is_positional_witness :
  isSynthetic Sample.build = false
  /\ _getDisplayName "_phase:" Sample.build Sample.alpha = "alpha ()"
  /\ _getDisplayName "_phase:" Sample.compile Sample.alpha
     = "alpha (compile)".
Proof.
  split; [reflexivity|]. split.
  - destruct (display_name_is_positional "_phase:" Sample.build Sample.alpha
                eq_refl) as [Hname _].
    exact Hname.
  - destruct (display_name_is_positional "_phase:" Sample.compile
                Sample.alpha eq_refl) as [Hname _].
    exact Hname.
Defined.

Lemma missing_required_script_error_witness :
  (exists e w',
     createOperationRunner "linux" "_phase:" convertSlashesForWindows_spec
       Sample.gamma_compile Sample.fresh = (Throw e, w'))
  /\ exists w',
       createOperationRunner "linux" "_phase:" convertSlashesForWindows_spec
         Sample.gamma_lint Sample.fresh
       = (Return
            (NullOperationRunner
               {| null_name := "gamma ()";
                  null_result := FromCache;
                  null_silent := false |}), w').
Proof.
  split.
  - apply (missing_required_script_error "linux" "_phase:"
             convertSlashesForWindows_spec Sample.gamma_compile Sample.fresh).
    split; [by left | reflexivity].
  - apply (missing_required_script_error "linux" "_phase:"
             convertSlashesForWindows_spec Sample.gamma_lint Sample.fresh);
      [by left | reflexivity].
Defined.

Lemma display_name_witness :
  _getDisplayName "_phase:" Sample.bundle Sample.alpha = "alpha"
  /\ _getDisplayName "_phase:" Sample.compile Sample.alpha
     = "alpha (compile)".
Proof.
  destruct (display_name "_phase:" Sample.bundle Sample.alpha)
    as (Hsynthetic & _).
  destruct (display_name "_phase:" Sample.compile Sample.alpha)
    as (_ & _ & Hdeclared).
  split; [by apply Hsynthetic | by apply (Hdeclared eq_refl "compile")].
Defined.

Lemma create_changes_only_the_memo_entry_witness :
  exists e w',
    createOperationRunner "linux" "_phase:" convertSlashesForWindows_spec
      Sample.gamma_compile Sample.fresh = (Throw e, w')
    /\ message e
       = "The project 'gamma' does not define a '_phase:compile' command in the 'scripts' section of its package.json"
    /\ _options (this w') = Sample.factoryOptions
    /\ _customParametersByPhase (this w') !! phase_ref Sample.compile
       = Some ["--production"; "--locale"; "en"].
Proof.
  eexists _, _. split; [vm_compute; reflexivity|].
  split; [reflexivity|].
  destruct (create_changes_only_the_memo_entry "linux" "_phase:"
              convertSlashesForWindows_spec Sample.gamma_compile Sample.fresh)
    as (Hoptions & _ & Hentry & _).
  split; [exact Hoptions | exact Hentry].
Defined.

(** ** Runs of the factory *)

Section Runs.

Variable platform : string.
Variable phaseNamePrefix : string.
Variable convertSlashesForWindows : string -> string.

Local Abbreviation create :=
  (createOperationRunner platform phaseNamePrefix convertSlashesForWindows).
Local Abbreviation create_all' :=
  (create_all platform phaseNamePrefix convertSlashesForWindows).
Local Abbreviation memo w := (_customParametersByPhase (this w)).

Lemma create_all_cons (options : IOperationOptions)
    (requests : list IOperationOptions) (w : World) :
  create_all' (options :: requests) w
  = create_all' requests (create options w).2.
Proof. done. Qed.

Lemma create_keeps_options (options : IOperationOptions) (w : World) :
  _options (this (create options w).2) = _options (this w).
Proof. rewrite create_world. apply lookup_keeps_options. Qed.

Lemma create_populates (options : IOperationOptions) (w : World) :
  memo (create options w).2 !! phase_ref (phase options)
  = Some (values_for (phase options) w).
Proof. rewrite create_world. apply lookup_populates. Qed.

(** The completion of a call is a function of the options of the factory
    and of the argument list the call works with. *)
Lemma create_completion_ext (options : IOperationOptions) (w w' : World) :
  _options (this w) = _options (this w') ->
  values_for (phase options) w = values_for (phase options) w' ->
  (create options w).1 = (create options w').1.
Proof.
  intros Hoptions Hvalues. rewrite !create_cases. cbn [fst].
  rewrite Hvalues. unfold shell_runner_for. by rewrite Hoptions.
Qed.

Lemma rendered_arguments_ext (p p' : IPhase)
    (options : IShellOperationRunnerFactoryOptions) :
  associatedParameters p = associatedParameters p' ->
  rendered_arguments p options = rendered_arguments p' options.
Proof.
  intros Hsame. unfold rendered_arguments, associated_entries.
  by rewrite Hsame.
Qed.

(** Where the entries of the map after a run come from. *)
Lemma create_all_entry_origin (requests : list IOperationOptions)
    (w : World) (k : ref) (l : list string) :
  memo (create_all' requests w) !! k = Some l ->
  memo w !! k = Some l
  \/ exists options,
       options ∈ requests
       /\ phase_ref (phase options) = k
       /\ l = rendered_arguments (phase options) (_options (this w)).
Proof.
  revert w. induction requests as [|options requests IH]; intros w Hl.
  - by left.
  - rewrite create_all_cons in Hl.
    destruct (IH _ Hl) as [Hbefore | (o & Ho & Href & Hrendered)].
    + destruct (decide (k = phase_ref (phase options))) as [->|Hk].
      * rewrite create_populates in Hbefore. injection Hbefore as <-.
        unfold values_for.
        destruct (memo w !! phase_ref (phase options)) as [l'|] eqn:Hw.
        -- by left.
        -- right. exists options. split; [apply list_elem_of_here | done].
      * left. rewrite create_world in Hbefore.
        by rewrite lookup_keeps_other_entries in Hbefore.
    + right. exists o. split; [by apply list_elem_of_further|].
      split; [done|]. by rewrite create_keeps_options in Hrendered.
Qed.

(** X1: a request made again, at once or after any other requests, has
    the completion it had the first time, the same runner or the same
    error, and changes nothing. *)
Theorem repeated_request_same_result (options : IOperationOptions)
    (requests : list IOperationOptions) (w : World) :
  let w1 := (create options w).2 in
  let w2 := create_all' requests w1 in
  create options w2 = ((create options w).1, w2).
Proof.
  intros w1 w2.
  assert (memo w2 !! phase_ref (phase options)
          = Some (values_for (phase options) w)) as Hstored.
  { subst w2 w1. apply create_all_keeps_entry. apply create_populates. }
  assert (_options (this w2) = _options (this w)) as Hoptions.
  { subst w2 w1. rewrite create_all_keeps_options.
    apply create_keeps_options. }
  rewrite (surjective_pairing (create options w2)).
  rewrite (create_stored _ _ _ _ _ _ Hstored). f_equal.
  apply create_completion_ext; [done|].
  unfold values_for at 1. by rewrite Hstored.
Qed.

(** X2: memoization does not show in the results.  On a factory that
    started new, a request made after other requests completes as it
    would on the new factory, provided the phase objects of equal identity
    among the earlier requests have the associated parameters of the
    requested phase. *)
Theorem memoization_is_transparent
    (factoryOptions : IShellOperationRunnerFactoryOptions)
    (calls : list ref) (before : list IOperationOptions)
    (options : IOperationOptions) :
  (forall earlier,
     earlier ∈ before ->
     phase_ref (phase earlier) = phase_ref (phase options) ->
     associatedParameters (phase earlier)
     = associatedParameters (phase options)) ->
  let w0 := {| this := constructor factoryOptions;
               appendToArgList_calls := calls |} in
  (create options (create_all' before w0)).1 = (create options w0).1.
Proof.
  intros Hsame w0. apply create_completion_ext.
  - by rewrite create_all_keeps_options.
  - unfold values_for at 2. simpl. rewrite lookup_empty. simpl.
    unfold values_for. rewrite create_all_keeps_options. simpl.
    destruct (memo (create_all' before w0) !! phase_ref (phase options))
      as [l|] eqn:Hl; [|done].
    apply create_all_entry_origin in Hl
      as [Hnew | (earlier & Hin & Href & ->)].
    + simpl in Hnew. by rewrite lookup_empty in Hnew.
    + simpl. apply rendered_arguments_ext. by apply Hsame.
Qed.

(** X3: after a run the map has an entry for every phase that was
    requested, also by a request that threw, and for no other phase
    besides those it had before. *)
Theorem memo_holds_the_requested_phases
    (requests : list IOperationOptions) (w : World) :
  dom (memo (create_all' requests w))
  = dom (memo w) ∪ requested_phases requests.
Proof.
  revert w. induction requests as [|options requests IH]; intros w.
  - unfold requested_phases. simpl. set_solver.
  - rewrite create_all_cons, IH.
    assert (dom (memo (create options w).2)
            = {[ phase_ref (phase options) ]} ∪ dom (memo w)) as ->.
    { rewrite create_world.
      destruct (memo w !! phase_ref (phase options)) as [l|] eqn:Hl.
      - rewrite (lookup_stored _ _ _ Hl). simpl.
        apply (elem_of_dom_2 (memo w)) in Hl. set_solver.
      - rewrite (lookup_first _ _ Hl). simpl. by rewrite dom_insert_L. }
    unfold requested_phases. simpl. set_solver.
Qed.

Lemma first_requests_fresh (seen : gset ref)
    (requests : list IOperationOptions) :
  NoDup (map (fun options => phase_ref (phase options))
           (first_requests seen requests))
  /\ forall options,
       options ∈ first_requests seen requests ->
       (phase_ref (phase options) ∉ seen) /\ options ∈ requests.
Proof.
  revert seen. induction requests as [|o requests IH]; intros seen.
  - split; [constructor | by intros options Hin%elem_of_nil].
  - simpl. destruct (decide (phase_ref (phase o) ∈ seen)) as [Hin|Hout].
    + destruct (IH seen) as [Hnodup Hfresh]. split; [done|].
      intros options Hopt. destruct (Hfresh _ Hopt).
      split; [done | by apply list_elem_of_further].
    + destruct (IH ({[ phase_ref (phase o) ]} ∪ seen)) as [Hnodup Hfresh].
      split.
      * simpl. constructor; [|done].
        intros (o' & Href & Hin')%list_elem_of_fmap.
        destruct (Hfresh _ Hin') as [Hnot _]. set_solver.
      * intros options [->|Hopt]%elem_of_cons.
        -- split; [done | apply list_elem_of_here].
        -- destruct (Hfresh _ Hopt) as [Hnot Hin'].
           split; [set_solver | by apply list_elem_of_further].
Qed.

(** X4: in a run every phase is rendered at most once.  The
    [appendToArgList] calls of a run are those of one rendering for each
    request that meets a phase without an entry for the first time, in the
    order of these requests; no two of these requests name the same
    phase, and so the run makes at most as many calls as there are such
    requests times registered parameters. *)
Theorem run_renders_each_phase_once (requests : list IOperationOptions)
    (w : World) :
  let firsts := first_requests (dom (memo w)) requests in
  appendToArgList_calls (create_all' requests w)
  = appendToArgList_calls w
    ++ flat_map
         (fun options => rendering_calls (_options (this w)) (phase options))
         firsts
  /\ NoDup (map (fun options => phase_ref (phase options)) firsts)
  /\ length (appendToArgList_calls (create_all' requests w))
     <= length (appendToArgList_calls w)
        + length firsts * length (customParameters (_options (this w))).
Proof.
  intros firsts.
  assert (appendToArgList_calls (create_all' requests w)
          = appendToArgList_calls w
            ++ flat_map
                 (fun options =>
                    rendering_calls (_options (this w)) (phase options))
                 firsts) as Hcalls.
  { subst firsts. revert w.
    induction requests as [|options requests IH]; intros w.
    - simpl. by rewrite app_nil_r.
    - rewrite create_all_cons, IH. rewrite create_world. simpl.
      destruct (decide (phase_ref (phase options) ∈ dom (memo w)))
        as [Hin|Hout].
      + apply elem_of_dom in Hin as [l Hl].
        by rewrite (lookup_stored _ _ _ Hl).
      + apply not_elem_of_dom in Hout.
        rewrite (lookup_first _ _ Hout). simpl.
        rewrite dom_insert_L. by rewrite <- app_assoc. }
  split; [done|]. split; [apply first_requests_fresh|].
  rewrite Hcalls, length_app. apply Nat.add_le_mono_l. clear Hcalls.
  induction firsts as [|options firsts' IH]; [done|].
  simpl. rewrite length_app. apply Nat.add_le_mono; [|exact IH].
  unfold rendering_calls, associated_entries. rewrite length_map.
  apply length_filter.
Qed.

End Runs.

(** ** Argument lists and command lines *)

Lemma render_onto_appending
    (tokens : IRegisteredCustomParameter -> list string)
    (entries : list IRegisteredCustomParameter) (args : list string) :
  (forall entry args',
     entry ∈ entries ->
     appendToArgList (tsCommandLineParameter entry) args'
     = args' ++ tokens entry) ->
  render_onto args entries = args ++ flat_map tokens entries.
Proof.
  revert args. induction entries as [|e entries IH]; intros args Happend.
  - simpl. by rewrite app_nil_r.
  - unfold render_onto. simpl. fold (render_onto
      (appendToArgList (tsCommandLineParameter e) args) entries).
    rewrite IH.
    + rewrite (Happend e args) by apply list_elem_of_here.
      by rewrite <- app_assoc.
    + intros entry args' Hin. apply Happend. by apply list_elem_of_further.
Qed.

(** X5: when every registered parameter appends its own tokens to the
    array it is given, the list computed for a phase without an entry is
    the tokens of the registered parameters that the phase is associated
    with, in registration order; a registered parameter the phase is not
    associated with, and an associated parameter that is not registered,
    add nothing. *)
Theorem arguments_follow_registration_order
    (tokens : IRegisteredCustomParameter -> list string) (p : IPhase)
    (w : World) :
  (forall entry args,
     entry ∈ customParameters (_options (this w)) ->
     appendToArgList (tsCommandLineParameter entry) args
     = args ++ tokens entry) ->
  _customParametersByPhase (this w) !! phase_ref p = None ->
  (_getCustomParameterValuesForPhase p w).1
  = Return
      (flat_map
         (fun entry =>
            if decide (parameter entry ∈ associatedParameters p)
            then tokens entry else [])
         (customParameters (_options (this w)))).
Proof.
  intros Happend Hnone. rewrite (lookup_first _ _ Hnone). cbn [fst].
  f_equal. unfold rendered_arguments, associated_entries.
  rewrite (render_onto_appending tokens).
  - simpl. clear Happend.
    induction (customParameters (_options (this w))) as [|e entries IH];
      [done|].
    simpl. destruct (decide (parameter e ∈ associatedParameters p)).
    + rewrite filter_cons_True by done. simpl. by rewrite IH.
    + rewrite filter_cons_False by done. by rewrite IH.
  - intros entry args Hin. apply Happend.
    by apply list_elem_of_filter in Hin as [_ Hin].
Qed.

Lemma append_assoc (s1 s2 s3 : string) :
  (s1 +:+ s2) +:+ s3 = s1 +:+ s2 +:+ s3.
Proof.
  induction s1 as [|c s1 IH]; [done|].
  change (String c ((s1 +:+ s2) +:+ s3) = String c (s1 +:+ s2 +:+ s3)).
  by rewrite IH.
Qed.

Lemma join_cons_cons (separator x y : string) (l : list string) :
  join separator (x :: y :: l)
  = x +:+ separator +:+ join separator (y :: l).
Proof. done. Qed.

(** Joining does not tell an argument that contains the separator from two
    arguments. *)
Lemma join_split_argument (separator a b : string)
    (before after : list string) :
  join separator (before ++ [a +:+ separator +:+ b] ++ after)
  = join separator (before ++ [a; b] ++ after).
Proof.
  induction before as [|x before IH].
  - simpl app. destruct after as [|c after].
    + done.
    + rewrite !join_cons_cons. by rewrite !append_assoc.
  - destruct before as [|y before].
    + simpl app in *. rewrite !join_cons_cons. by rewrite IH.
    + simpl app in *. rewrite !join_cons_cons. by rewrite IH.
Qed.

(** X6: the command line does not quote its arguments: an argument that
    contains a space resolves to the command line of the two arguments
    around the space, on every platform and for every script entry. *)
Theorem arguments_are_not_quoted (platform : string)
    (convertSlashesForWindows : string -> string)
    (pr : RushConfigurationProject) (commandToRun a b : string)
    (before after : list string) :
  _getScriptToRun platform convertSlashesForWindows pr commandToRun
    (before ++ [a +:+ " " +:+ b] ++ after)
  = _getScriptToRun platform convertSlashesForWindows pr commandToRun
      (before ++ [a; b] ++ after).
Proof.
  unfold _getScriptToRun. by rewrite join_split_argument.
Qed.

(** X7: when the script entry is absent, [null] or the empty string, the
    completion of [createOperationRunner], the error or the no-op runner,
    is the same on every platform, for every slash conversion, and for
    every state and every options of the factory: neither the custom
    parameters nor the platform have a part in it. *)
Theorem no_command_outcome_ignores_platform_and_parameters
    (phaseNamePrefix : string) (options : IOperationOptions)
    (platform platform' : string)
    (convertSlashesForWindows convertSlashesForWindows' : string -> string)
    (w w' : World) :
  script_entry (project options) (phase options) = JsUndefined
  \/ script_entry (project options) (phase options) = JsNull
  \/ script_entry (project options) (phase options) = JsString "" ->
  (createOperationRunner platform phaseNamePrefix convertSlashesForWindows
     options w).1
  = (createOperationRunner platform' phaseNamePrefix
       convertSlashesForWindows' options w').1
  /\ forall o,
       (createOperationRunner platform phaseNamePrefix
          convertSlashesForWindows options w).1
       <> Return (ShellOperationRunner o).
Proof.
  unfold script_entry. intros Hentry. rewrite !create_cases. cbn [fst].
  destruct Hentry as [Hentry | [Hentry | Hentry]].
  1, 2: rewrite !getScriptToRun_absent by auto;
    by destruct (ignoreMissingScript (phase options)).
  by rewrite !(getScriptToRun_empty _ _ _ _ _ Hentry).
Qed.

(** ** Overload indexes *)

Section Overloads.

Local Abbreviation cache b := (_cachedOverloadIndexesByDeclaration b).
Local Abbreviation all d := (astDeclarations (astSymbol d)).
Local Abbreviation kind_of d := (kind (declaration (ast_node d))).
Local Abbreviation ref_of d := (ast_ref (ast_node d)).

(** *** The loop *)

Lemma record_overloads_other (k : SyntaxKind) (l : list AstDeclarationNode)
    (m : gmap ref nat) (n : nat) (r : ref) :
  r ∉ map ast_ref (of_kind k l) ->
  (fold_left (record_overload k) l (m, n)).1 !! r = m !! r.
Proof.
  revert m n. induction l as [|x l IH]; intros m n Hout; [done|].
  simpl. unfold record_overload at 2. unfold of_kind in Hout.
  destruct (decide (kind (declaration x) = k)) as [Hk|Hk].
  - rewrite filter_cons_True in Hout by done. simpl in Hout.
    apply not_elem_of_cons in Hout as [Hne Hout].
    rewrite IH by done. simpl. by rewrite lookup_insert_ne.
  - rewrite filter_cons_False in Hout by done. by apply IH.
Qed.

Lemma record_overloads_keeps (k : SyntaxKind) (l : list AstDeclarationNode)
    (m : gmap ref nat) (n : nat) (r : ref) :
  is_Some (m !! r) ->
  is_Some ((fold_left (record_overload k) l (m, n)).1 !! r).
Proof.
  revert m n. induction l as [|x l IH]; intros m n Hsome; [done|].
  simpl. unfold record_overload at 2.
  destruct (decide (kind (declaration x) = k)); apply IH; [|done].
  simpl. apply lookup_insert_is_Some.
  destruct (decide (ast_ref x = r)); [by left | by right].
Qed.

Lemma record_overloads_member (k : SyntaxKind)
    (l : list AstDeclarationNode) (m : gmap ref nat) (n : nat) (r : ref) :
  r ∈ map ast_ref (of_kind k l) ->
  is_Some ((fold_left (record_overload k) l (m, n)).1 !! r).
Proof.
  revert m n. induction l as [|x l IH]; intros m n Hin.
  - by apply elem_of_nil in Hin.
  - simpl. unfold record_overload at 2. unfold of_kind in Hin.
    destruct (decide (kind (declaration x) = k)) as [Hk|Hk].
    + rewrite filter_cons_True in Hin by done. simpl in Hin.
      apply elem_of_cons in Hin as [->|Hin]; [|by apply IH].
      apply record_overloads_keeps. simpl.
      rewrite lookup_insert_eq. by eexists.
    + rewrite filter_cons_False in Hin by done. by apply IH.
Qed.

Lemma of_kind_refs_subset (k : SyntaxKind) (l : list AstDeclarationNode)
    (r : ref) :
  r ∈ map ast_ref (of_kind k l) -> r ∈ map ast_ref l.
Proof.
  intros (x & -> & Hx)%list_elem_of_fmap.
  apply list_elem_of_filter in Hx as [_ Hx].
  by apply (list_elem_of_fmap_2 ast_ref).
Qed.

Lemma record_overloads_rank (k : SyntaxKind) (l : list AstDeclarationNode)
    (m : gmap ref nat) (n : nat) (x : AstDeclarationNode) :
  NoDup (map ast_ref l) ->
  x ∈ l ->
  kind (declaration x) = k ->
  (fold_left (record_overload k) l (m, n)).1 !! ast_ref x
  = Some (n + length (of_kind k (declarations_before (ast_ref x) l))).
Proof.
  revert m n. induction l as [|y l IH]; intros m n Hnodup Hin Hk.
  - by apply elem_of_nil in Hin.
  - simpl in Hnodup. apply NoDup_cons in Hnodup as [Hfresh Hnodup].
    simpl. unfold record_overload at 2.
    destruct (decide (ast_ref y = ast_ref x)) as [Href|Href].
    + assert (y = x) as ->.
      { apply elem_of_cons in Hin as [->|Hin]; [done|].
        exfalso. apply Hfresh. rewrite Href.
        by apply (list_elem_of_fmap_2 ast_ref). }
      rewrite decide_True by done.
      rewrite record_overloads_other.
      * simpl. rewrite lookup_insert_eq. f_equal. unfold of_kind. simpl. lia.
      * intros Hmem%of_kind_refs_subset. by apply Hfresh.
    + apply elem_of_cons in Hin as [->|Hin]; [done|].
      unfold of_kind.
      destruct (decide (kind (declaration y) = k)) as [Hy|Hy].
      * rewrite filter_cons_True by done. rewrite IH by done.
        unfold of_kind. simpl. f_equal. lia.
      * rewrite filter_cons_False by done. by rewrite IH.
Qed.

(** *** The method *)

Lemma getOverloadIndex_single (d : AstDeclaration) (b : ModelBuilder) :
  length (all d) = 1 -> _getOverloadIndex d b = (Return 0, b).
Proof. intros Hone. unfold _getOverloadIndex. by rewrite decide_True. Qed.

Lemma getOverloadIndex_cached (d : AstDeclaration) (b : ModelBuilder)
    (i : nat) :
  length (all d) <> 1 ->
  cache b !! ref_of d = Some i ->
  _getOverloadIndex d b = (Return i, b).
Proof.
  intros Hmany Hi. unfold _getOverloadIndex.
  rewrite decide_False by done. by rewrite Hi.
Qed.

Lemma rank_of_single (d : AstDeclaration) :
  length (all d) = 1 -> ast_node d ∈ all d -> overload_rank d = 0.
Proof.
  intros Hone Hin. unfold overload_rank.
  destruct (all d) as [|x [|y l]]; try done.
  apply list_elem_of_singleton in Hin as <-. simpl.
  by rewrite decide_True.
Qed.

Lemma getOverloadIndex_computes (d : AstDeclaration) (b : ModelBuilder) :
  length (all d) <> 1 ->
  cache b !! ref_of d = None ->
  cache (_getOverloadIndex d b).2
  = (fold_left (record_overload (kind_of d)) (all d) (cache b, 0)).1
  /\ (_getOverloadIndex d b).1
     = match (fold_left (record_overload (kind_of d)) (all d)
                (cache b, 0)).1 !! ref_of d with
       | Some overloadIndex => Return overloadIndex
       | None =>
           Throw {| message :=
                      "Error calculating overload index for declaration" |}
       end.
Proof.
  intros Hmany Hnone. unfold _getOverloadIndex.
  rewrite decide_False by done. rewrite Hnone. cbv zeta.
  by destruct ((fold_left (record_overload (kind_of d)) (all d)
                  (cache b, 0)).1 !! ref_of d).
Qed.

Lemma not_recorded_iff (k : SyntaxKind) (l : list AstDeclarationNode)
    (r : ref) :
  r ∉ map ast_ref (of_kind k l)
  <-> forall other,
        other ∈ l -> ast_ref other = r -> kind (declaration other) <> k.
Proof.
  split.
  - intros Hout other Hin Href Hk. apply Hout. rewrite <- Href.
    apply (list_elem_of_fmap_2 ast_ref). by apply list_elem_of_filter.
  - intros Hnone (x & -> & Hx)%list_elem_of_fmap.
    apply list_elem_of_filter in Hx as [Hk Hx]. by apply (Hnone x).
Qed.

Lemma same_ref_same_node (l : list AstDeclarationNode)
    (x y : AstDeclarationNode) :
  NoDup (map ast_ref l) -> x ∈ l -> y ∈ l -> ast_ref x = ast_ref y -> x = y.
Proof.
  induction l as [|z l IH]; intros Hnodup Hx Hy Href.
  - by apply elem_of_nil in Hx.
  - simpl in Hnodup. apply NoDup_cons in Hnodup as [Hfresh Hnodup].
    apply elem_of_cons in Hx as [->|Hx];
      apply elem_of_cons in Hy as [->|Hy]; try done.
    + exfalso. apply Hfresh. rewrite Href.
      by apply (list_elem_of_fmap_2 ast_ref).
    + exfalso. apply Hfresh. rewrite <- Href.
      by apply (list_elem_of_fmap_2 ast_ref).
    + by apply IH.
Qed.

Lemma ranks_differ (k : SyntaxKind) (l : list AstDeclarationNode)
    (x y : AstDeclarationNode) :
  NoDup (map ast_ref l) -> x ∈ l -> y ∈ l ->
  kind (declaration x) = k -> kind (declaration y) = k ->
  ast_ref x <> ast_ref y ->
  length (of_kind k (declarations_before (ast_ref x) l))
  <> length (of_kind k (declarations_before (ast_ref y) l)).
Proof.
  induction l as [|z l IH]; intros Hnodup Hx Hy Hkx Hky Hne.
  - by apply elem_of_nil in Hx.
  - pose proof Hnodup as Hnodup'.
    simpl in Hnodup. apply NoDup_cons in Hnodup as [Hfresh Hnodup].
    simpl.
    destruct (decide (ast_ref z = ast_ref x)) as [Hzx|Hzx];
      destruct (decide (ast_ref z = ast_ref y)) as [Hzy|Hzy].
    + congruence.
    + assert (z = x) as ->
        by (apply (same_ref_same_node (z :: l));
            [done | apply list_elem_of_here | done | done]).
      unfold of_kind. rewrite filter_cons_True by done. simpl. lia.
    + assert (z = y) as ->
        by (apply (same_ref_same_node (z :: l));
            [done | apply list_elem_of_here | done | done]).
      unfold of_kind. rewrite filter_cons_True by done. simpl. lia.
    + apply elem_of_cons in Hx as [->|Hx]; [done|].
      apply elem_of_cons in Hy as [->|Hy]; [done|].
      specialize (IH Hnodup Hx Hy Hkx Hky Hne). unfold of_kind in *.
      destruct (decide (kind (declaration z) = k)).
      * rewrite !filter_cons_True by done. simpl. lia.
      * by rewrite !filter_cons_False by done.
Qed.

(** X8: [_getOverloadIndex] throws, with its one message, exactly when the
    symbol has not exactly one declaration, the declaration has no stored
    index, and no declaration of the symbol is this declaration object
    with its kind; for a declaration that is among the declarations of its
    symbol it returns an index. *)
Theorem overload_index_error_iff (d : AstDeclaration) (b : ModelBuilder) :
  ((exists e b', _getOverloadIndex d b = (Throw e, b'))
   <-> length (all d) <> 1
       /\ cache b !! ref_of d = None
       /\ forall other,
            other ∈ all d -> ast_ref other = ref_of d ->
            kind (declaration other) <> kind_of d)
  /\ (forall e b',
        _getOverloadIndex d b = (Throw e, b') ->
        message e = "Error calculating overload index for declaration")
  /\ (ast_node d ∈ all d ->
      exists i b', _getOverloadIndex d b = (Return i, b')).
Proof.
  destruct (decide (length (all d) = 1)) as [Hone|Hmany].
  { rewrite (getOverloadIndex_single _ b Hone).
    split; [split|split].
    - intros (e & b' & H). discriminate H.
    - by intros [H _].
    - intros e b' H. discriminate H.
    - eauto. }
  destruct (cache b !! ref_of d) as [i|] eqn:Hcached.
  { rewrite (getOverloadIndex_cached _ _ _ Hmany Hcached).
    split; [split|split].
    - intros (e & b' & H). discriminate H.
    - by intros (_ & H & _).
    - intros e b' H. discriminate H.
    - eauto. }
  destruct (getOverloadIndex_computes d b Hmany Hcached) as [_ Hresult].
  rewrite (surjective_pairing (_getOverloadIndex d b)), Hresult.
  clear Hresult.
  destruct (decide (ref_of d
                    ∈ map ast_ref (of_kind (kind_of d) (all d))))
    as [Hin|Hout].
  - destruct (record_overloads_member (kind_of d) (all d) (cache b) 0
                (ref_of d) Hin) as [i ->].
    split; [split|split].
    + intros (e & b' & H). discriminate H.
    + intros (_ & _ & Hnone). exfalso.
      by apply (proj2 (not_recorded_iff (kind_of d) (all d) (ref_of d))
                  Hnone).
    + intros e b' H. discriminate H.
    + eauto.
  - rewrite (record_overloads_other _ _ _ _ _ Hout), Hcached.
    split; [split|split].
    + intros _. split; [done|]. split; [done|].
      by apply not_recorded_iff.
    + eauto.
    + intros e b' H. by inversion H.
    + intros Hmember. exfalso.
      by apply (proj1 (not_recorded_iff (kind_of d) (all d) (ref_of d))
                  Hout (ast_node d)).
Qed.

Lemma overload_index_is_rank_aux (d : AstDeclaration) (b : ModelBuilder) :
  belongs_to_its_symbol d ->
  cache b !! ref_of d = None ->
  (_getOverloadIndex d b).1 = Return (overload_rank d).
Proof.
  intros [Hnodup Hmember] Hnone.
  destruct (decide (length (all d) = 1)) as [Hone|Hmany].
  - rewrite (getOverloadIndex_single _ b Hone).
    by rewrite (rank_of_single _ Hone Hmember).
  - destruct (getOverloadIndex_computes d b Hmany Hnone) as [_ ->].
    by rewrite (record_overloads_rank _ _ _ _ _ Hnodup Hmember eq_refl).
Qed.

(** X9: for a declaration among the distinct declarations of its symbol,
    when the symbol has one declaration or the declaration has no stored
    index, [_getOverloadIndex] returns the number of declarations of the
    symbol that have its kind and come before it. *)
Theorem overload_index_is_rank (d : AstDeclaration) (b : ModelBuilder) :
  belongs_to_its_symbol d ->
  length (all d) = 1 \/ cache b !! ref_of d = None ->
  (_getOverloadIndex d b).1 = Return (overload_rank d).
Proof.
  intros [Hnodup Hmember] Hcase.
  destruct (decide (length (all d) = 1)) as [Hone|Hmany].
  - rewrite (getOverloadIndex_single _ b Hone).
    by rewrite (rank_of_single _ Hone Hmember).
  - destruct Hcase as [Hone|Hnone]; [done|].
    destruct (getOverloadIndex_computes d b Hmany Hnone) as [_ ->].
    by rewrite (record_overloads_rank _ _ _ _ _ Hnodup Hmember eq_refl).
Qed.

(** X10: a call that computes stores the index of every declaration of
    the symbol that has the kind of the declaration it was called for: a
    later call for any of them returns the number of declarations of that
    kind before it and leaves the map as it is. *)
Theorem overloads_are_indexed_together (d d' : AstDeclaration)
    (b : ModelBuilder) :
  belongs_to_its_symbol d ->
  length (all d) <> 1 ->
  cache b !! ref_of d = None ->
  astSymbol d' = astSymbol d ->
  ast_node d' ∈ all d ->
  kind_of d' = kind_of d ->
  let b' := (_getOverloadIndex d b).2 in
  _getOverloadIndex d' b' = (Return (overload_rank d'), b').
Proof.
  intros [Hnodup Hmember] Hmany Hnone Hsymbol Hmember' Hkind b'.
  apply getOverloadIndex_cached; [by rewrite Hsymbol|].
  subst b'. destruct (getOverloadIndex_computes d b Hmany Hnone) as [-> _].
  rewrite (record_overloads_rank _ _ _ _ _ Hnodup Hmember' Hkind).
  unfold overload_rank. by rewrite Hsymbol, Hkind.
Qed.

(** X11: two declaration objects of one symbol that have the same kind
    never get the same index, whatever the maps the two indexes are
    computed with. *)
Theorem overloads_get_distinct_indexes (d1 d2 : AstDeclaration)
    (b1 b2 : ModelBuilder) :
  belongs_to_its_symbol d1 ->
  astSymbol d2 = astSymbol d1 ->
  ast_node d2 ∈ all d1 ->
  kind_of d2 = kind_of d1 ->
  ref_of d1 <> ref_of d2 ->
  cache b1 !! ref_of d1 = None ->
  cache b2 !! ref_of d2 = None ->
  (_getOverloadIndex d1 b1).1 <> (_getOverloadIndex d2 b2).1.
Proof.
  intros [Hnodup Hmember] Hsymbol Hmember' Hkind Hne Hnone1 Hnone2.
  rewrite (overload_index_is_rank_aux d1 b1), (overload_index_is_rank_aux d2 b2);
    try done; try (split; by rewrite ?Hsymbol).
  intros [= Heq]. revert Heq. unfold overload_rank.
  rewrite Hsymbol, Hkind. by apply ranks_differ.
Qed.

(** X12: a call changes the map only at declaration objects of the symbol
    that have the kind of the declaration, and removes no entry. *)
Theorem overload_index_frame (d : AstDeclaration) (b : ModelBuilder) :
  (forall r,
     (forall other,
        other ∈ all d -> ast_ref other = r ->
        kind (declaration other) <> kind_of d) ->
     cache (_getOverloadIndex d b).2 !! r = cache b !! r)
  /\ dom (cache b) ⊆ dom (cache (_getOverloadIndex d b).2).
Proof.
  destruct (decide (length (all d) = 1)) as [Hone|Hmany].
  { by rewrite (getOverloadIndex_single _ b Hone). }
  destruct (cache b !! ref_of d) as [i|] eqn:Hcached.
  { by rewrite (getOverloadIndex_cached _ _ _ Hmany Hcached). }
  destruct (getOverloadIndex_computes d b Hmany Hcached) as [-> _].
  split.
  - intros r Hnone. apply record_overloads_other. by apply not_recorded_iff.
  - intros r Hr. apply elem_of_dom. apply record_overloads_keeps.
    by apply elem_of_dom.
Qed.

(** *** Runs of the method *)

Lemma getOverloadIndex_keeps_ranks (U : list AstDeclaration)
    (x : AstDeclaration) (b : ModelBuilder) :
  (forall d, d ∈ U -> belongs_to_its_symbol d) ->
  (forall d, d ∈ U -> one_symbol_per_declaration d x) ->
  x ∈ U ->
  stored_indexes_are_ranks U b ->
  stored_indexes_are_ranks U (_getOverloadIndex x b).2.
Proof.
  intros Hbelongs Hone Hx Hsound.
  destruct (decide (length (all x) = 1)) as [Hsingle|Hmany].
  { by rewrite (getOverloadIndex_single _ b Hsingle). }
  destruct (cache b !! ref_of x) as [j|] eqn:Hcached.
  { by rewrite (getOverloadIndex_cached _ _ _ Hmany Hcached). }
  destruct (getOverloadIndex_computes x b Hmany Hcached) as [Hcache _].
  intros d i Hd. rewrite Hcache.
  destruct (decide (ref_of d
                    ∈ map ast_ref (of_kind (kind_of x) (all x))))
    as [Hin|Hout].
  - apply list_elem_of_fmap in Hin as (n & Href & Hn).
    apply list_elem_of_filter in Hn as [Hkind Hn].
    destruct (Hbelongs d Hd) as [Hnodup Hmember].
    assert (astSymbol d = astSymbol x) as Hsymbol
      by exact (Hone d Hd (ast_node d) n Hmember Hn Href).
    assert (ast_node d = n) as Hnode.
    { apply (same_ref_same_node (all x)); [|by rewrite <- Hsymbol|done|done].
      by rewrite <- Hsymbol. }
    assert (kind_of d = kind_of x) as Hkind' by (by rewrite Hnode).
    rewrite <- Hkind'.
    rewrite (record_overloads_rank (kind_of d) (all x) (cache b) 0
               (ast_node d)); [| by rewrite <- Hsymbol
                               | by rewrite <- Hsymbol | done].
    intros [= <-]. unfold overload_rank. by rewrite Hsymbol.
  - rewrite (record_overloads_other _ _ _ _ _ Hout). by apply Hsound.
Qed.

Lemma index_all_keeps_ranks (U requests : list AstDeclaration)
    (b : ModelBuilder) :
  (forall d, d ∈ U -> belongs_to_its_symbol d) ->
  (forall d x, d ∈ U -> x ∈ U -> one_symbol_per_declaration d x) ->
  (forall x, x ∈ requests -> x ∈ U) ->
  stored_indexes_are_ranks U b ->
  stored_indexes_are_ranks U (index_all requests b).
Proof.
  intros Hbelongs Hone. revert b.
  induction requests as [|x requests IH]; intros b Hsub Hsound; [done|].
  simpl. apply IH.
  - intros y Hy. apply Hsub. by apply list_elem_of_further.
  - apply getOverloadIndex_keeps_ranks; try done.
    + intros d Hd. apply Hone; [done|]. apply Hsub, list_elem_of_here.
    + apply Hsub, list_elem_of_here.
Qed.

(** X13: memoization does not show in the indexes.  On a builder that
    started with an empty map, after any calls, a call returns the number
    of declarations of the symbol that have the kind of the declaration
    and come before it, provided every declaration that was asked for is
    among the distinct declarations of its symbol and no declaration
    object is listed by two symbols. *)
Theorem memoized_overload_indexes_are_ranks
    (requests : list AstDeclaration) (d : AstDeclaration) :
  (forall x, x ∈ requests ++ [d] -> belongs_to_its_symbol x) ->
  (forall x y,
     x ∈ requests ++ [d] -> y ∈ requests ++ [d] ->
     one_symbol_per_declaration x y) ->
  (_getOverloadIndex d
     (index_all requests {| _cachedOverloadIndexesByDeclaration := ∅ |})).1
  = Return (overload_rank d).
Proof.
  intros Hbelongs Hone.
  set (b := index_all requests _).
  assert (stored_indexes_are_ranks (requests ++ [d]) b) as Hsound.
  { subst b. apply index_all_keeps_ranks; [done | done | |].
    - intros x Hx. apply elem_of_app. by left.
    - intros x i _ Hi. simpl in Hi. by rewrite lookup_empty in Hi. }
  assert (d ∈ requests ++ [d]) as Hd
    by (apply elem_of_app; right; apply list_elem_of_here).
  destruct (cache b !! ref_of d) as [i|] eqn:Hcached.
  - destruct (decide (length (all d) = 1)) as [Hsingle|Hmany].
    + rewrite (getOverloadIndex_single _ b Hsingle).
      destruct (Hbelongs d Hd) as [_ Hmember].
      by rewrite (rank_of_single _ Hsingle Hmember).
    + rewrite (getOverloadIndex_cached _ _ _ Hmany Hcached). simpl.
      f_equal. by apply (Hsound d i).
  - apply overload_index_is_rank_aux; [by apply Hbelongs | done].
Qed.

End Overloads.

(** ** The run and overload properties on the sample inputs *)

Ltac elem_of_cases H :=
  simpl in H;
  repeat (apply elem_of_cons in H as [->|H]);
  try (by apply elem_of_nil in H).

Lemma memoization_is_transparent_witness :
  (createOperationRunner "win32" "_phase:" convertSlashesForWindows_spec
     Sample.alpha_compile
     (create_all "win32" "_phase:" convertSlashesForWindows_spec
        [Sample.beta_test; Sample.gamma_compile] Sample.fresh)).1
  = (createOperationRunner "win32" "_phase:" convertSlashesForWindows_spec
       Sample.alpha_compile Sample.fresh).1.
Proof.
  apply (memoization_is_transparent "win32" "_phase:"
           convertSlashesForWindows_spec Sample.factoryOptions []
           [Sample.beta_test; Sample.gamma_compile] Sample.alpha_compile).
  intros earlier Hin Href. elem_of_cases Hin.
  - discriminate Href.
  - reflexivity.
Defined.

Lemma arguments_follow_registration_order_witness :
  (_getCustomParameterValuesForPhase Sample.compile Sample.fresh).1
  = Return ["--production"; "--locale"; "en"].
Proof.
  apply (arguments_follow_registration_order
           (fun entry => appendToArgList (tsCommandLineParameter entry) [])
           Sample.compile Sample.fresh).
  - intros entry args Hin. elem_of_cases Hin; reflexivity.
  - reflexivity.
Defined.

Lemma no_command_outcome_ignores_platform_and_parameters_witness :
  (createOperationRunner "win32" "_phase:" convertSlashesForWindows_spec
     Sample.gamma_compile Sample.fresh).1
  = (createOperationRunner "linux" "_phase:" (fun command => command)
       Sample.gamma_compile
       {| this :=
            constructor
              {| rushConfiguration := 1%positive;
                 buildCacheConfiguration := None;
                 commandLineConfiguration := 2%positive;
                 isIncrementalBuildAllowed := false;
                 customParameters := [];
                 projectChangeAnalyzer := 3%positive |};
          appendToArgList_calls := [] |}).1.
Proof.
  apply (no_command_outcome_ignores_platform_and_parameters "_phase:"
           Sample.gamma_compile "win32" "linux").
  by left.
Defined.

Lemma sample_symbol_distinct :
  NoDup (map ast_ref (astDeclarations OverloadSample.symbol)).
Proof.
  simpl. repeat (apply NoDup_cons; split; [set_solver|]). apply NoDup_nil_2.
Qed.

Lemma sample_belongs (d : AstDeclaration) :
  d ∈ [OverloadSample.second; OverloadSample.namespace;
       OverloadSample.first] ->
  belongs_to_its_symbol d.
Proof.
  intros Hin. split; elem_of_cases Hin;
    first [ apply sample_symbol_distinct | simpl; set_solver ].
Qed.

Lemma overload_index_is_rank_witness :
  (_getOverloadIndex OverloadSample.second OverloadSample.empty).1
  = Return 1.
Proof.
  apply (overload_index_is_rank OverloadSample.second OverloadSample.empty).
  - apply sample_belongs. simpl. set_solver.
  - by right.
Defined.

Lemma overloads_are_indexed_together_witness :
  let b' := (_getOverloadIndex OverloadSample.second
               OverloadSample.empty).2 in
  _getOverloadIndex OverloadSample.first b' = (Return 0, b').
Proof.
  apply (overloads_are_indexed_together OverloadSample.second
           OverloadSample.first OverloadSample.empty).
  - apply sample_belongs. simpl. set_solver.
  - discriminate.
  - reflexivity.
  - reflexivity.
  - simpl. set_solver.
  - reflexivity.
Defined.

Lemma overloads_get_distinct_indexes_witness :
  (_getOverloadIndex OverloadSample.first OverloadSample.empty).1
  <> (_getOverloadIndex OverloadSample.second OverloadSample.empty).1.
Proof.
  apply (overloads_get_distinct_indexes OverloadSample.first
           OverloadSample.second).
  - apply sample_belongs. simpl. set_solver.
  - reflexivity.
  - simpl. set_solver.
  - reflexivity.
  - discriminate.
  - reflexivity.
  - reflexivity.
Defined.

Lemma memoized_overload_indexes_are_ranks_witness :
  (_getOverloadIndex OverloadSample.first
     (index_all [OverloadSample.second; OverloadSample.namespace]
        OverloadSample.empty)).1
  = Return 0.
Proof.
  apply (memoized_overload_indexes_are_ranks
           [OverloadSample.second; OverloadSample.namespace]
           OverloadSample.first).
  - intros x Hx. by apply sample_belongs.
  - intros x y Hx Hy n1 n2 _ _ _.
    elem_of_cases Hx; elem_of_cases Hy; reflexivity.
Defined.

(** A declaration that its symbol does not list meets the error. *)
Lemma overload_index_error_iff_witness :
  exists b',
    _getOverloadIndex OverloadSample.unlisted OverloadSample.empty
    = (Throw {| message :=
                  "Error calculating overload index for declaration" |},
       b').
Proof.
  destruct (overload_index_error_iff OverloadSample.unlisted
              OverloadSample.empty) as ([_ Hthrows] & Hmessage & _).
  destruct Hthrows as (e & b' & Hrun).
  - split; [discriminate|]. split; [reflexivity|].
    intros other Hin Href. elem_of_cases Hin; discriminate Href.
  - exists b'. rewrite Hrun. destruct e as [m].
    pose proof (Hmessage _ _ Hrun) as Hm. simpl in Hm. by rewrite Hm.
Defined.
